(** * Scroll-synchronised animation and looping carousels

    A shallow embedding of the stateful parts of the site:

    - [GalleryCarousel]      (src/App.jsx): clone-padded sliding carousel;
    - [AutoScrollGallery]    (src/components/AutoScrollGallery.jsx):
                             auto-scrolling strip with seamless wrap;
    - [useParallaxRelative]  (src/App.jsx): scroll-driven background offset;
    - the section observer of [App] (src/App.jsx);
    - [LogoMark], [hexWithAlpha], the navigation links and the effects'
      cleanup functions.

    React state cells are record fields, every event handler and effect
    callback is a function on that record, and the browser is an explicit
    stream of events.  JavaScript numbers that hold slide positions are
    integers ([Z]); pixel and millisecond quantities are exact rationals
    ([Q]), so rounding of IEEE doubles is not part of the model. *)

From Stdlib Require Import ZArith QArith Qround Qminmax Lqa Lia List String Ascii Bool DecimalString.
From stdpp Require Import base decidable option list strings gmap.
Import ListNotations.

#[local] Open Scope Z_scope.

(** ** GalleryCarousel (src/App.jsx) *)

Module GalleryCarousel.

Section Slides.
Context {A : Type}.

(** [slides]: the images padded with a clone of the last image in front
    and a clone of the first image behind; empty for no images. *)
Definition slides (images : list A) : list A :=
  match images with
  | [] => []
  | first :: _ => List.last images first :: images ++ [first]
  end.
End Slides.

(** The three [useState] cells of the component. *)
Record state : Type := mk_state {
  index       : Z;      (* position in [slides] *)
  isAnimating : bool;   (* CSS transition enabled *)
  paused      : bool    (* pointer is over the carousel *)
}.

(** Initial render: [useState(1)], [useState(true)], [useState(false)]. *)
Definition init : state :=
  {| index := 1; isAnimating := true; paused := false |}.

Definition setIndex (f : Z -> Z) (s : state) : state :=
  {| index := f (index s); isAnimating := isAnimating s; paused := paused s |}.

Definition setAnimating (b : bool) (s : state) : state :=
  {| index := index s; isAnimating := b; paused := paused s |}.

Definition setPaused (b : bool) (s : state) : state :=
  {| index := index s; isAnimating := isAnimating s; paused := b |}.

(** What the browser can deliver to the component. *)
Inductive event : Type :=
| IntervalTick            (* the 3500 ms [setInterval] callback *)
| TransitionEnd           (* "transitionend" on the track *)
| AnimationFrame          (* [requestAnimationFrame] callback *)
| Go (dir : Z)            (* prev / next button: [go(-1)], [go(1)] *)
| Dot (i : nat)           (* click on the i-th dot *)
| MouseEnter
| MouseLeave.

Section Component.
Context {A : Type}.
Variable images : list A.

(** [images.length] and [slides.length]. *)
Definition n : Z := Z.of_nat (length images).
Definition slen : Z := Z.of_nat (length (slides images)).

(** The autoplay effect installs its interval unless
    [paused || !slides.length]. *)
Definition autoplay_installed (s : state) : bool :=
  negb (paused s || (slen =? 0)).

(** Interval callback: [setIndex(i => i + 1); setAnimating(true)]. *)
Definition onInterval (s : state) : state :=
  if autoplay_installed s
  then setAnimating true (setIndex (fun i => i + 1) s)
  else s.

(** [onEnd]: wrap handling after a finished transition. *)
Definition onEnd (s : state) : state :=
  if index s =? slen - 1 then
    setIndex (fun _ => 1) (setAnimating false s)
  else if index s =? 0 then
    setIndex (fun _ => slen - 2) (setAnimating false s)
  else s.

(** Re-enable effect: while [isAnimating] is false a frame callback is
    pending, and it runs [setAnimating(true)]. *)
Definition frame_pending (s : state) : bool := negb (isAnimating s).

Definition onFrame (s : state) : state :=
  if frame_pending s then setAnimating true s else s.

(** [go(dir)]: [setAnimating(true); setIndex(i => i + dir)]. *)
Definition go (dir : Z) (s : state) : state :=
  setIndex (fun i => i + dir) (setAnimating true s).

(** Dot click: [setIndex(i + 1); setAnimating(true)].  One dot is
    rendered per image, so a click on a dot that does not exist is never
    delivered. *)
Definition onDot (i : nat) (s : state) : state :=
  if (i <? length images)%nat
  then setAnimating true (setIndex (fun _ => Z.of_nat i + 1) s)
  else s.

Definition step (s : state) (e : event) : state :=
  match e with
  | IntervalTick   => onInterval s
  | TransitionEnd  => onEnd s
  | AnimationFrame => onFrame s
  | Go dir         => go dir s
  | Dot i          => onDot i s
  | MouseEnter     => setPaused true s
  | MouseLeave     => setPaused false s
  end.

Definition run (s : state) (es : list event) : state :=
  fold_left step es s.

(** [realIndex]: [images.length ? (index - 1 + n) % n : 0]; the
    JavaScript remainder takes the sign of the dividend, as [Z.rem]. *)
Definition realIndex (s : state) : Z :=
  if n =? 0 then 0 else Z.rem (index s - 1 + n) n.

(** Bounds of the clone-padded sequence and of the dot indicator. *)
Definition index_in_bounds (s : state) : Prop :=
  0 <= index s <= n + 1.

Definition realIndex_in_bounds (s : state) : Prop :=
  0 <= realIndex s <= n - 1.

(** Moves that start from a real slide: a directional move or an
    autoplay tick is issued only while the index is on one of the [n]
    real slides, that is, after the previous transition has ended. *)
Definition settled (s : state) (e : event) : Prop :=
  match e with
  | Go dir => (dir = 1 \/ dir = -1) /\ 1 <= index s <= n
  | IntervalTick => 1 <= index s <= n
  | _ => True
  end.

Fixpoint settled_trace (s : state) (es : list event) : Prop :=
  match es with
  | [] => True
  | e :: es' => settled s e /\ settled_trace (step s e) es'
  end.
End Component.

End GalleryCarousel.

(** ** Rational arithmetic used by the pixel computations *)

#[local] Open Scope Q_scope.

(** [Math.trunc] on rationals: round toward zero. *)
Definition Qtrunc (q : Q) : Z :=
  if Qle_bool 0 q then Qfloor q else Qceiling q.

(** The JavaScript remainder [a % b] on numbers: [a - b * trunc (a / b)];
    the result has the sign of the dividend. *)
Definition js_rem (a b : Q) : Q :=
  a - b * inject_Z (Qtrunc (a / b)).

(** ** AutoScrollGallery (src/components/AutoScrollGallery.jsx) *)

Module AutoScrollGallery.

(** An image object [{ src, alt?, href? }]. *)
Record image : Type := mk_image {
  src  : string;
  alt  : option string;
  href : option string
}.

#[local] Set Warnings "-register-all".

(** The JavaScript values that can be passed as the [images] prop or
    stored in it. *)
Inductive value : Type :=
| VUndefined
| VNull
| VBool (b : bool)
| VNaN
| VNumber (x : Q)
| VString (s : string)
| VObject (o : image)
| VArray (items : list value).

(** [Boolean(v)]: undefined, null, false, NaN, zero and the empty string
    are falsy; every object and every array is truthy. *)
Definition truthy (v : value) : bool :=
  match v with
  | VUndefined | VNull | VNaN => false
  | VBool b => b
  | VNumber x => negb (Qeq_bool x 0)
  | VString s => negb (String.eqb s EmptyString)
  | VObject _ | VArray _ => true
  end.

(** The object [{ src: url }]. *)
Definition as_object (url : string) : value :=
  VObject {| src := url; alt := None; href := None |}.

(** [typeof img === "string" ? { src: img } : img]. *)
Definition normalize (img : value) : value :=
  match img with
  | VString s => as_object s
  | _ => img
  end.

(** [safeImages]: [Array.isArray(images) ? images : []], then
    [.filter(Boolean)], then [.map(normalize)]. *)
Definition safeImages (images : value) : list value :=
  let list := match images with VArray items => items | _ => [] end in
  List.map normalize (List.filter truthy list).

Definition hasLoop (images : value) : bool :=
  (2 <=? length (safeImages images))%nat.

(** [track]: the list twice when looping, the list itself otherwise. *)
Definition track (images : value) : list value :=
  if hasLoop images
  then safeImages images ++ safeImages images
  else safeImages images.

(** Props and the environment queries made by the effects. *)
Record config : Type := mk_config {
  images       : value;
  speed        : Q;      (* px per second, default 60 *)
  pauseOnHover : bool;   (* default true *)
  showControls : bool;   (* default true *)
  reduced      : bool;   (* matchMedia("(prefers-reduced-motion: reduce)") *)
  hasIntersectionObserver : bool   (* "IntersectionObserver" in window *)
}.


(** The gallery as [App] renders it (six image URLs, arrows shown, hover
    pause left at its default), with the speed and the environment left
    open; [App] passes 70 px per second. *)
Definition app_images : value :=
  VArray (List.map VString
    [ "images/cheathamArbor1.avif"; "images/cheathamArbor2.avif";
      "images/cheathamArbor8.avif"; "images/cheathamArbor9.avif";
      "images/cheathamArbor3.avif"; "images/cheathamArbor4.avif" ]%string).

Definition app_gallery (speed : Q) (reduced : bool) : config :=
  {| images := app_images; speed := speed; pauseOnHover := true;
     showControls := true; reduced := reduced;
     hasIntersectionObserver := true |}.

(** The scroll container ([containerRef.current]), the [isPaused] cell,
    and the ticker effect's local [prev]; [ticker] is [None] when the
    effect returned before installing anything.  [scrollLeft] holds the
    number the code assigns to it; what the element makes of a number
    outside its scrollable range is the subject of [ScrollContainer]. *)
Record state : Type := mk_state {
  scrollLeft  : Q;
  scrollWidth : Q;
  isPaused    : bool;
  ticker      : option Q
}.

Inductive event : Type :=
| Frame (ts : Q)                      (* animation frame, timestamp in ms *)
| Resize (width : Q)                  (* layout change: new scrollWidth *)
| Intersection (entries : list bool) (now : Q)  (* isIntersecting flags *)
| MouseEnter (now : Q)
| MouseLeave (now : Q)
| Arrow (dir : Z) (cardWidth marginX : Q).      (* prev / next button *)

Definition is_arrow (e : event) : bool :=
  match e with Arrow _ _ _ => true | _ => false end.

Section Component.
Variable cfg : config.

(** The ticker effect runs to the end only with a loop and without the
    reduced-motion preference: [if (!el || !hasLoop) return;
    if (reduced) return;]. *)
Definition ticker_installed : bool :=
  hasLoop (images cfg) && negb (reduced cfg).

(** First commit at time [now] with a track of width [width]. *)
Definition mount (now width : Q) : state :=
  {| scrollLeft := 0;
     scrollWidth := width;
     isPaused := false;
     ticker := if ticker_installed then Some now else None |}.

(** One tick moves by [pxPerMs * dt], [dt = Math.min(ts - prev, 50)]. *)
Definition advance (prev ts : Q) : Q :=
  (speed cfg / 1000) * Qmin (ts - prev) 50.

(** [step(ts)], the animation-frame callback. *)
Definition step (ts : Q) (s : state) : state :=
  match ticker s with
  | None => s
  | Some prev =>
      let moved := scrollLeft s + advance prev ts in
      let half := scrollWidth s / 2 in
      {| scrollLeft :=
           if isPaused s then scrollLeft s
           else if Qle_bool half moved then moved - half else moved;
         scrollWidth := scrollWidth s;
         isPaused := isPaused s;
         ticker := Some ts |}
  end.

(** [onResize], the ResizeObserver callback, after the layout changed
    the track width. *)
Definition onResize (width : Q) (s : state) : state :=
  let half := width / 2 in
  {| scrollLeft :=
       match ticker s with
       | Some _ =>
           if negb (Qle_bool half 0) then js_rem (scrollLeft s) half
           else scrollLeft s
       | None => scrollLeft s
       end;
     scrollWidth := width;
     isPaused := isPaused s;
     ticker := ticker s |}.

(** [setIsPaused(b)]: a changed value re-runs the ticker effect, which
    re-reads [performance.now()] into [prev]. *)
Definition setIsPaused (b : bool) (now : Q) (s : state) : state :=
  if Bool.eqb b (isPaused s) then s
  else {| scrollLeft := scrollLeft s;
          scrollWidth := scrollWidth s;
          isPaused := b;
          ticker := if ticker_installed then Some now else None |}.

(** IntersectionObserver callback:
    [entries.forEach(e => { if (!e.isIntersecting) setIsPaused(true) })]. *)
Definition onIntersection (entries : list bool) (now : Q) (s : state) : state :=
  if hasIntersectionObserver cfg then
    fold_left (fun st (isIntersecting : bool) =>
                 if isIntersecting then st else setIsPaused true now st)
              entries s
  else s.

(** [scrollByOneCard(dir)]: ask the element for a smooth scroll by the
    first card's width plus its horizontal margins.  [scrollLeft] records
    the destination asked for, the present offset plus [delta]; the element
    moves towards it and stops at the ends of its scrollable range.  The
    buttons exist only when [showControls && hasLoop]. *)
Definition scrollByOneCard (dir : Z) (cardWidth marginX : Q) (s : state) : state :=
  match track (images cfg) with
  | [] => s
  | _ :: _ =>
      {| scrollLeft := scrollLeft s + inject_Z dir * (cardWidth + marginX);
         scrollWidth := scrollWidth s;
         isPaused := isPaused s;
         ticker := ticker s |}
  end.

Definition handle (s : state) (e : event) : state :=
  match e with
  | Frame ts => step ts s
  | Resize w => onResize w s
  | Intersection entries now => onIntersection entries now s
  | MouseEnter now =>
      if pauseOnHover cfg then setIsPaused true now s else s
  | MouseLeave now =>
      if pauseOnHover cfg then setIsPaused false now s else s
  | Arrow dir w m =>
      if showControls cfg && hasLoop (images cfg)
      then scrollByOneCard dir w m s else s
  end.

Definition run (s : state) (es : list event) : state :=
  fold_left handle es s.

End Component.

End AutoScrollGallery.

(** ** AutoScrollGallery on the scroll container *)

(** The offset that the ticker assigns is stored by an element that keeps
    it inside its scrollable range.  This module runs the ticker effect
    and the pause handlers of [AutoScrollGallery] on such an element; the
    arrow buttons and scrolling by hand are left out. *)
Module ScrollContainer.

(** [el.scrollLeft], [el.scrollWidth] and [el.clientWidth]. *)
Record element : Type := mk_element {
  scrollLeft  : Q;
  scrollWidth : Q;
  clientWidth : Q
}.

(** The largest offset an element of these widths accepts:
    [scrollWidth - clientWidth], and zero when the content fits. *)
Definition maxScroll (sw cw : Q) : Q :=
  if Qle_bool 0 (sw - cw) then sw - cw else 0.

(** The offset the element keeps when [x] is asked for. *)
Definition clamp (sw cw x : Q) : Q :=
  if Qle_bool 0 x
  then (if Qle_bool x (maxScroll sw cw) then x else maxScroll sw cw)
  else 0.

(** [el.scrollLeft = x]. *)
Definition set_scrollLeft (x : Q) (e : element) : element :=
  {| scrollLeft := clamp (scrollWidth e) (clientWidth e) x;
     scrollWidth := scrollWidth e;
     clientWidth := clientWidth e |}.

(** A layout change gives the element new widths and keeps its offset
    inside the new range. *)
Definition layout (sw cw : Q) (e : element) : element :=
  {| scrollLeft := clamp sw cw (scrollLeft e);
     scrollWidth := sw;
     clientWidth := cw |}.

(** The element, the [isPaused] cell and the ticker effect's [prev]. *)
Record state : Type := mk_state {
  el       : element;
  isPaused : bool;
  ticker   : option Q
}.

Inductive event : Type :=
| Frame (ts : Q)                      (* animation frame, timestamp in ms *)
| Resize (scrollWidth clientWidth : Q)  (* layout change, observer report *)
| Intersection (entries : list bool) (now : Q)
| MouseEnter (now : Q)
| MouseLeave (now : Q).


Section Component.
Variable cfg : AutoScrollGallery.config.

(** First commit at time [now]. *)
Definition mount (now sw cw : Q) : state :=
  {| el := {| scrollLeft := 0; scrollWidth := sw; clientWidth := cw |};
     isPaused := false;
     ticker := if AutoScrollGallery.ticker_installed cfg
               then Some now else None |}.

(** [step(ts)]: [el.scrollLeft += pxPerMs * dt], then
    [if (el.scrollLeft >= half) el.scrollLeft -= half], each assignment
    read back from the element. *)
Definition step (ts : Q) (s : state) : state :=
  match ticker s with
  | None => s
  | Some prev =>
      let dt := Qmin (ts - prev) 50 in
      let pxPerMs := AutoScrollGallery.speed cfg / 1000 in
      let e1 := set_scrollLeft (scrollLeft (el s) + pxPerMs * dt) (el s) in
      let half := scrollWidth e1 / 2 in
      let e2 :=
        if Qle_bool half (scrollLeft e1)
        then set_scrollLeft (scrollLeft e1 - half) e1
        else e1 in
      {| el := if isPaused s then el s else e2;
         isPaused := isPaused s;
         ticker := Some ts |}
  end.

(** [onResize], the callback of the ResizeObserver that the ticker effect
    installs. *)
Definition onResize (s : state) : state :=
  match ticker s with
  | None => s
  | Some _ =>
      let half := scrollWidth (el s) / 2 in
      if negb (Qle_bool half 0)
      then {| el := set_scrollLeft (js_rem (scrollLeft (el s)) half) (el s);
              isPaused := isPaused s;
              ticker := ticker s |}
      else s
  end.

(** [setIsPaused(b)]: a changed value re-runs the ticker effect. *)
Definition setIsPaused (b : bool) (now : Q) (s : state) : state :=
  if Bool.eqb b (isPaused s) then s
  else {| el := el s;
          isPaused := b;
          ticker := if AutoScrollGallery.ticker_installed cfg
                    then Some now else None |}.

Definition onIntersection (entries : list bool) (now : Q) (s : state) : state :=
  if AutoScrollGallery.hasIntersectionObserver cfg then
    fold_left (fun st (isIntersecting : bool) =>
                 if isIntersecting then st else setIsPaused true now st)
              entries s
  else s.

Definition handle (s : state) (e : event) : state :=
  match e with
  | Frame ts => step ts s
  | Resize sw cw =>
      onResize {| el := layout sw cw (el s);
                  isPaused := isPaused s;
                  ticker := ticker s |}
  | Intersection entries now => onIntersection entries now s
  | MouseEnter now =>
      if AutoScrollGallery.pauseOnHover cfg then setIsPaused true now s else s
  | MouseLeave now =>
      if AutoScrollGallery.pauseOnHover cfg then setIsPaused false now s else s
  end.

Definition run (s : state) (es : list event) : state :=
  fold_left handle es s.
End Component.

(** The offset lies in the first copy of the track. *)
Definition in_first_half (s : state) : Prop :=
  0 <= scrollLeft (el s) /\ scrollLeft (el s) < scrollWidth (el s) / 2.

(** The element as a browser keeps it: positive widths and an offset
    inside the scrollable range. *)
Definition laid_out (s : state) : Prop :=
  0 < scrollWidth (el s) /\ 0 < clientWidth (el s)
  /\ 0 <= scrollLeft (el s)
  /\ scrollLeft (el s) <= maxScroll (scrollWidth (el s)) (clientWidth (el s)).

(** The same state without the container's width, as [AutoScrollGallery]
    sees it. *)
Definition forget (s : state) : AutoScrollGallery.state :=
  {| AutoScrollGallery.scrollLeft := scrollLeft (el s);
     AutoScrollGallery.scrollWidth := scrollWidth (el s);
     AutoScrollGallery.isPaused := isPaused s;
     AutoScrollGallery.ticker := ticker s |}.

End ScrollContainer.

(** ** Template literals *)

(** A template literal is a sequence of literal chunks and interpolated
    numbers; [Number] is converted with the number-to-string rule. *)
Inductive piece : Type :=
| Text (s : string)
| Number (q : Q).

(** The number of decimal places of a fraction with denominator [d]: the
    least [k], counted from [k] on and within [fuel] steps, such that [d]
    divides [10 ^ k]; [None] when the decimal expansion does not end. *)
Fixpoint decimal_places (fuel : nat) (k d : Z) : option Z :=
  match fuel with
  | O => None
  | S fuel' =>
      if (10 ^ k mod d =? 0)%Z then Some k
      else decimal_places fuel' (k + 1)%Z d
  end.

(** The last [width] decimal digits of [n], most significant first. *)
Fixpoint digits (width : nat) (n : Z) : string :=
  match width with
  | O => EmptyString
  | S w =>
      String.append (digits w (n / 10)%Z)
        (String (Ascii.ascii_of_nat (48 + Z.to_nat (n mod 10)%Z)) EmptyString)
  end.

(** Number-to-string, for the numbers that JavaScript prints in plain
    decimal notation and that a rational stands for exactly: a finite
    decimal expansion of at most fifteen digits, integer part and fraction
    together, and a magnitude of at least [1e-6] (or zero).  The text is an optional minus
    sign, the integer part, and, when there is a fraction, a point and the
    fraction's digits without trailing zeros.  No text is given for the
    other numbers (exponent notation, and fractions such as 1/3 whose
    printed digits are those of the nearest double). *)
Definition number_to_string (q : Q) : option string :=
  let r := Qred q in
  let d := Z.pos (Qden r) in
  match decimal_places 22 0 d with
  | None => None
  | Some k =>
      let m := (Z.abs (Qnum r) * (10 ^ k / d))%Z in
      if (10 ^ 15 <=? m)%Z then None
      else if (0 <? m)%Z && (m * 10 ^ 6 <? 10 ^ k)%Z then None
      else
        let sign :=
          if (Qnum r <? 0)%Z then "-"%string else EmptyString in
        let whole := NilZero.string_of_int (Z.to_int (m / 10 ^ k)%Z) in
        let fraction :=
          if (k =? 0)%Z then EmptyString
          else String.append "." (digits (Z.to_nat k) (m mod 10 ^ k)%Z) in
        Some (String.append sign (String.append whole fraction))
  end.

Fixpoint render (t : list piece) : option string :=
  match t with
  | [] => Some EmptyString
  | Text s :: rest => option_map (String.append s) (render rest)
  | Number q :: rest =>
      match number_to_string q, render rest with
      | Some d, Some r => Some (String.append d r)
      | _, _ => None
      end
  end.

(** ** useParallaxRelative (src/App.jsx) *)

Module Parallax.

Record config : Type := mk_config {
  speed   : Q;       (* default 0.25 *)
  reduced : bool     (* matchMedia("(prefers-reduced-motion: reduce)") *)
}.

(** The page as the effect sees it, and the effect's locals.  [raf] holds
    the scroll position captured by the pending frame callback, [None]
    standing for [raf = 0]; [transform] is [bg.style.transform], [None]
    until the script writes it. *)
Record state : Type := mk_state {
  scrollY      : Q;                     (* window.scrollY *)
  pageTop      : Q;                     (* container's top edge on the page *)
  raf          : option Q;
  lastY        : Q;
  containerTop : Q;
  transform    : option (list piece)
}.

Inductive event : Type :=
| Scroll (y : Q)          (* the window scrolled to y, "scroll" dispatched *)
| Resize (top : Q)        (* layout moved the container, "resize" dispatched *)
| Frame.                  (* the pending animation frame runs *)

Section Effect.
Variable cfg : config.

(** [container.getBoundingClientRect().top]: relative to the viewport. *)
Definition rectTop (s : state) : Q := pageTop s - scrollY s.

(** [getContainerTop()]. *)
Definition getContainerTop (s : state) : Q := rectTop s + scrollY s.

(** [`translateY(${offset}px) scale(1.05)`]. *)
Definition transform_of (offset : Q) : list piece :=
  [Text "translateY("; Number offset; Text "px) scale(1.05)"].

(** [onScroll]. *)
Definition onScroll (s : state) : state :=
  if reduced cfg then s
  else
    let y := scrollY s in                      (* window.scrollY || 0 *)
    if Qeq_bool y (lastY s) then s
    else
      {| scrollY := scrollY s; pageTop := pageTop s;
         raf := match raf s with
                | Some pending => Some pending  (* raf ||= ... keeps it *)
                | None => Some y
                end;
         lastY := y;
         containerTop := containerTop s;
         transform := transform s |}.

(** [onResize]. *)
Definition onResize (s : state) : state :=
  onScroll
    {| scrollY := scrollY s; pageTop := pageTop s;
       raf := raf s;
       lastY := -1;
       containerTop := getContainerTop s;
       transform := transform s |}.

(** The frame callback requested by [onScroll]. *)
Definition onFrame (s : state) : state :=
  match raf s with
  | None => s
  | Some y =>
      let localY := y - containerTop s in
      let offset := localY * speed cfg in
      {| scrollY := scrollY s; pageTop := pageTop s;
         raf := None;
         lastY := lastY s;
         containerTop := containerTop s;
         transform := Some (transform_of offset) |}
  end.

(** The effect body at mount, with [bg] and [container] present:
    [let containerTop = getContainerTop()], later [onResize()]. *)
Definition mount (y top : Q) : state :=
  let s0 := {| scrollY := y; pageTop := top;
               raf := None; lastY := -1;
               containerTop := 0; transform := None |} in
  onResize
    {| scrollY := y; pageTop := top;
       raf := None; lastY := -1;
       containerTop := getContainerTop s0;
       transform := None |}.

Definition handle (s : state) (e : event) : state :=
  match e with
  | Scroll y =>
      onScroll {| scrollY := y; pageTop := pageTop s;
                  raf := raf s; lastY := lastY s;
                  containerTop := containerTop s;
                  transform := transform s |}
  | Resize top =>
      onResize {| scrollY := scrollY s; pageTop := top;
                  raf := raf s; lastY := lastY s;
                  containerTop := containerTop s;
                  transform := transform s |}
  | Frame => onFrame s
  end.

Definition run (s : state) (es : list event) : state :=
  fold_left handle es s.
End Effect.

End Parallax.

(** ** Section observer of App (src/App.jsx) *)

Module SectionObserver.

Record section : Type := mk_section { id : string; label : string }.

(** The [sections] constant of [App]. *)
Definition sections : list section :=
  [ {| id := "services"; label := "Services" |};
    {| id := "process";  label := "Process" |};
    {| id := "gallery";  label := "Gallery" |};
    {| id := "contact";  label := "Contact" |} ]%string.

(** An IntersectionObserverEntry: [entry.target.id], [entry.isIntersecting]. *)
Record entry : Type := mk_entry { target : string; isIntersecting : bool }.

(** [useState("services")]. *)
Definition init : string := "services"%string.

(** The ids the effect observes: those with an element in the document. *)
Definition observed (document : list string) (secs : list section) : list string :=
  List.filter (fun i => bool_decide (i ∈ document)) (List.map id secs).

(** The observer callback:
    [entries.forEach(e => { if (e.isIntersecting) setActive(e.target.id) })]. *)
Definition callback (active : string) (entries : list entry) : string :=
  fold_left (fun a e => if isIntersecting e then target e else a) entries active.

(** The browser reports entries of observed targets only. *)
Definition deliver (document : list string) (secs : list section)
    (active : string) (entries : list entry) : string :=
  callback active
    (List.filter (fun e => bool_decide (target e ∈ observed document secs)) entries).

Definition run (document : list string) (secs : list section)
    (active : string) (batches : list (list entry)) : string :=
  fold_left (deliver document secs) batches active.

End SectionObserver.

(** ** Subscriptions held in the browser *)

(** The tables in which the browser keeps what the effects subscribe to:
    pending animation-frame requests, active intervals, event listeners
    (target, event type, identity of the callback closure) and observed
    targets of ResizeObserver / IntersectionObserver objects.  Handles and
    closure identities are drawn from one counter and never reused. *)
Module Browser.

#[local] Open Scope positive_scope.

Record browser : Type := mk_browser {
  next      : positive;
  frames    : gset positive;
  intervals : gset positive;
  listeners : gset (string * string * positive);
  observing : gset (positive * string)
}.

(** Everything that is subscribed, without the allocation counter. *)
Definition tables (b : browser) :
    gset positive * gset positive * gset (string * string * positive)
    * gset (positive * string) :=
  (frames b, intervals b, listeners b, observing b).

(** Number of outstanding subscriptions. *)
Definition outstanding (b : browser) : nat :=
  (size (frames b) + size (intervals b) + size (listeners b)
   + size (observing b))%nat.

(** A new function object or observer object. *)
Definition fresh (b : browser) : positive * browser :=
  (next b,
   {| next := Pos.succ (next b); frames := frames b;
      intervals := intervals b; listeners := listeners b;
      observing := observing b |}).

Definition requestAnimationFrame (b : browser) : positive * browser :=
  (next b,
   {| next := Pos.succ (next b); frames := {[ next b ]} ∪ frames b;
      intervals := intervals b; listeners := listeners b;
      observing := observing b |}).

Definition cancelAnimationFrame (h : positive) (b : browser) : browser :=
  {| next := next b; frames := frames b ∖ {[ h ]};
     intervals := intervals b; listeners := listeners b;
     observing := observing b |}.

Definition setInterval (b : browser) : positive * browser :=
  (next b,
   {| next := Pos.succ (next b); frames := frames b;
      intervals := {[ next b ]} ∪ intervals b; listeners := listeners b;
      observing := observing b |}).

Definition clearInterval (h : positive) (b : browser) : browser :=
  {| next := next b; frames := frames b;
     intervals := intervals b ∖ {[ h ]}; listeners := listeners b;
     observing := observing b |}.

Definition addEventListener (tgt type : string) (cb : positive)
    (b : browser) : browser :=
  {| next := next b; frames := frames b; intervals := intervals b;
     listeners := {[ (tgt, type, cb) ]} ∪ listeners b;
     observing := observing b |}.

Definition removeEventListener (tgt type : string) (cb : positive)
    (b : browser) : browser :=
  {| next := next b; frames := frames b; intervals := intervals b;
     listeners := listeners b ∖ {[ (tgt, type, cb) ]};
     observing := observing b |}.

(** [observer.observe(el)] and [observer.disconnect()]. *)
Definition observe (o : positive) (tgt : string) (b : browser) : browser :=
  {| next := next b; frames := frames b; intervals := intervals b;
     listeners := listeners b;
     observing := {[ (o, tgt) ]} ∪ observing b |}.

Definition disconnect (o : positive) (b : browser) : browser :=
  {| next := next b; frames := frames b; intervals := intervals b;
     listeners := listeners b;
     observing := filter (fun p => p.1 ≠ o) (observing b) |}.

(** The browser takes a frame request off its table before it runs the
    callback. *)
Definition take_frame (h : positive) (b : browser) : browser :=
  cancelAnimationFrame h b.

(** The calls a cleanup function makes. *)
Inductive release : Type :=
| CancelAnimationFrame (h : positive)
| ClearInterval (h : positive)
| RemoveEventListener (tgt type : string) (cb : positive)
| Disconnect (o : positive).

Definition perform (b : browser) (r : release) : browser :=
  match r with
  | CancelAnimationFrame h => cancelAnimationFrame h b
  | ClearInterval h => clearInterval h b
  | RemoveEventListener tgt type cb => removeEventListener tgt type cb b
  | Disconnect o => disconnect o b
  end.

Definition teardown (rs : list release) (b : browser) : browser :=
  fold_left perform rs b.

(** Handles in the tables were all handed out by the counter. *)
Definition well_formed (b : browser) : Prop :=
  (∀ h, h ∈ frames b → h < next b) ∧
  (∀ h, h ∈ intervals b → h < next b) ∧
  (∀ l, l ∈ listeners b → l.2 < next b) ∧
  (∀ p, p ∈ observing b → p.1 < next b).

Definition empty : browser :=
  {| next := 1; frames := ∅; intervals := ∅; listeners := ∅; observing := ∅ |}.

(** The handle or closure identity a release call names. *)
Definition release_handle (r : release) : positive :=
  match r with
  | CancelAnimationFrame h | ClearInterval h => h
  | RemoveEventListener _ _ cb => cb
  | Disconnect o => o
  end.

(** [b] holds what [b0] held plus subscriptions that the calls [rs] take
    back, and [rs] names only handles handed out after [b0]. *)
Definition owned (b0 : browser) (rs : list release) (b : browser) : Prop :=
  next b0 ≤ next b
  ∧ Forall (λ r, next b0 ≤ release_handle r) rs
  ∧ (∀ h, h ∈ frames b ↔
          h ∈ frames b0 ∨ (h ∈ frames b ∧ CancelAnimationFrame h ∈ rs))
  ∧ (∀ h, h ∈ intervals b ↔
          h ∈ intervals b0 ∨ (h ∈ intervals b ∧ ClearInterval h ∈ rs))
  ∧ (∀ l, l ∈ listeners b ↔
          l ∈ listeners b0
          ∨ (l ∈ listeners b ∧ RemoveEventListener l.1.1 l.1.2 l.2 ∈ rs))
  ∧ (∀ p, p ∈ observing b ↔
          p ∈ observing b0 ∨ (p ∈ observing b ∧ Disconnect p.1 ∈ rs)).

End Browser.

(** ** The effects and their cleanup functions *)

(** Each [useEffect] body is split into what it subscribes to at mount,
    how its callbacks change the subscriptions while it is mounted, and
    the calls of the cleanup function it returns.  Whether a callback asks
    for a frame depends on data (scroll position, reduced motion) that the
    signal carries as a flag. *)
Module Effects.
Import Browser.

Inductive signal : Type :=
| FrameFires                   (* the effect's pending frame callback runs *)
| IntervalFires                (* the effect's interval callback runs *)
| Dispatch (request : bool).   (* a listener or observer callback runs *)

Record effect : Type := mk_effect {
  locals  : Type;
  mount   : browser -> locals * browser;
  react   : signal -> locals * browser -> locals * browser;
  cleanup : locals -> list release
}.

Definition run (e : effect) (sigs : list signal) (b : browser) :
    locals e * browser :=
  fold_left (fun st sig => react e sig st) sigs (mount e b).

(** Unmount after the signals [sigs], calling the cleanup [times] times. *)
Definition unmount (e : effect) (sigs : list signal) (times : nat)
    (b : browser) : browser :=
  let '(l, b') := run e sigs b in
  Nat.iter times (teardown (cleanup e l)) b'.

(** *** useParallaxRelative *)

Record parallax_locals : Type := mk_parallax_locals {
  raf      : option positive;   (* [None] is [raf = 0] *)
  onScroll : positive;
  onResize : positive
}.

(** [onScroll]: [raf ||= requestAnimationFrame(...)] unless it returned
    early. *)
Definition parallax_onScroll (request : bool)
    (st : parallax_locals * browser) : parallax_locals * browser :=
  let '(l, b) := st in
  if request then
    match raf l with
    | Some _ => (l, b)
    | None =>
        let '(h, b') := requestAnimationFrame b in
        ({| raf := Some h; onScroll := onScroll l; onResize := onResize l |}, b')
    end
  else (l, b).

(** The effect body, when [bg] and [container] exist: the two handlers
    are created, [onResize()] runs once, the listeners are added. *)
Definition parallax_install (request : bool) (b : browser) :
    parallax_locals * browser :=
  let '(f, b1) := fresh b in
  let '(g, b2) := fresh b1 in
  let '(l, b3) :=
    parallax_onScroll request
      ({| raf := None; onScroll := f; onResize := g |}, b2) in
  (l, addEventListener "window" "resize" g
        (addEventListener "window" "scroll" f b3)).

(** [if (!bg || !container) return;] leaves nothing to clean up. *)
Definition parallax_mount (present request : bool) (b : browser) :
    option parallax_locals * browser :=
  if present then
    let '(l, b') := parallax_install request b in (Some l, b')
  else (None, b).

Definition parallax_react (sig : signal)
    (st : option parallax_locals * browser) : option parallax_locals * browser :=
  match fst st with
  | None => st
  | Some l =>
      match sig with
      | FrameFires =>
          match raf l with
          | Some h =>
              (Some {| raf := None; onScroll := onScroll l;
                       onResize := onResize l |},
               take_frame h (snd st))
          | None => st
          end
      | IntervalFires => st
      | Dispatch request =>
          let '(l', b') := parallax_onScroll request (l, snd st) in
          (Some l', b')
      end
  end.

Definition parallax_cleanup (l : option parallax_locals) : list release :=
  match l with
  | None => []
  | Some l =>
      [ RemoveEventListener "window" "scroll" (onScroll l);
        RemoveEventListener "window" "resize" (onResize l) ]
      ++ match raf l with
         | Some h => [ CancelAnimationFrame h ]
         | None => []
         end
  end.

Definition parallax (present request : bool) : effect :=
  {| locals := option parallax_locals;
     mount := parallax_mount present request;
     react := parallax_react;
     cleanup := parallax_cleanup |}.

(** *** AutoScrollGallery: ticker effect *)

Record ticker_locals : Type := mk_ticker_locals {
  rafId : positive;
  ro    : positive
}.

Definition ticker_mount (installed : bool) (b : browser) :
    option ticker_locals * browser :=
  if installed then
    let '(h, b1) := requestAnimationFrame b in
    let '(o, b2) := fresh b1 in
    (Some {| rafId := h; ro := o |}, observe o "container" b2)
  else (None, b).

(** [step] ends with [rafId = requestAnimationFrame(step)]. *)
Definition ticker_react (sig : signal)
    (st : option ticker_locals * browser) : option ticker_locals * browser :=
  match sig, fst st with
  | FrameFires, Some l =>
      let '(h, b') := requestAnimationFrame (take_frame (rafId l) (snd st)) in
      (Some {| rafId := h; ro := ro l |}, b')
  | _, _ => st
  end.

Definition ticker_cleanup (l : option ticker_locals) : list release :=
  match l with
  | Some l => [ CancelAnimationFrame (rafId l); Disconnect (ro l) ]
  | None => []
  end.

Definition ticker (installed : bool) : effect :=
  {| locals := option ticker_locals;
     mount := ticker_mount installed;
     react := ticker_react;
     cleanup := ticker_cleanup |}.

(** *** AutoScrollGallery: visibility effect *)

Definition visibility_mount (hasIO : bool) (b : browser) :
    option positive * browser :=
  if hasIO then
    let '(io, b1) := fresh b in (Some io, observe io "container" b1)
  else (None, b).

Definition visibility_cleanup (l : option positive) : list release :=
  match l with Some io => [ Disconnect io ] | None => [] end.

Definition visibility (hasIO : bool) : effect :=
  {| locals := option positive;
     mount := visibility_mount hasIO;
     react := fun _ st => st;
     cleanup := visibility_cleanup |}.

(** *** GalleryCarousel: autoplay, transition end, re-enable *)

Definition autoplay_mount (installed : bool) (b : browser) :
    option positive * browser :=
  if installed then let '(h, b1) := setInterval b in (Some h, b1)
  else (None, b).

Definition autoplay_cleanup (l : option positive) : list release :=
  match l with Some h => [ ClearInterval h ] | None => [] end.

Definition autoplay (installed : bool) : effect :=
  {| locals := option positive;
     mount := autoplay_mount installed;
     react := fun _ st => st;
     cleanup := autoplay_cleanup |}.

Definition transitionEnd_mount (b : browser) : positive * browser :=
  let '(onEnd, b1) := fresh b in
  (onEnd, addEventListener "track" "transitionend" onEnd b1).

Definition transitionEnd : effect :=
  {| locals := positive;
     mount := transitionEnd_mount;
     react := fun _ st => st;
     cleanup := fun onEnd => [ RemoveEventListener "track" "transitionend" onEnd ] |}.

(** [if (isAnimating) return; const id = requestAnimationFrame(...)]. *)
Definition reenable_mount (isAnimating : bool) (b : browser) :
    option positive * browser :=
  if isAnimating then (None, b)
  else let '(h, b1) := requestAnimationFrame b in (Some h, b1).

Definition reenable_react (sig : signal)
    (st : option positive * browser) : option positive * browser :=
  match sig, fst st with
  | FrameFires, Some h => (Some h, take_frame h (snd st))
  | _, _ => st
  end.

Definition reenable_cleanup (l : option positive) : list release :=
  match l with Some h => [ CancelAnimationFrame h ] | None => [] end.

Definition reenable (isAnimating : bool) : effect :=
  {| locals := option positive;
     mount := reenable_mount isAnimating;
     react := reenable_react;
     cleanup := reenable_cleanup |}.

(** *** App: section observer *)

(** [sections.forEach(({ id }) => { const el = ...; if (el) obs.observe(el) })];
    [present] lists the ids that have an element. *)
Definition sectionObserver_mount (present : list string) (b : browser) :
    positive * browser :=
  let '(obs, b1) := fresh b in
  (obs, fold_left (fun b' i => observe obs i b') present b1).

Definition sectionObserver (present : list string) : effect :=
  {| locals := positive;
     mount := sectionObserver_mount present;
     react := fun _ st => st;
     cleanup := fun obs => [ Disconnect obs ] |}.

(** An effect keeps its books: what it holds in the browser beyond what
    was there before it mounted is always covered by its cleanup calls. *)
Definition respects (e : effect) : Prop :=
  ∀ b0, well_formed b0 →
    owned b0 (cleanup e (mount e b0).1) (mount e b0).2
    ∧ ∀ sig st,
        owned b0 (cleanup e st.1) st.2 →
        owned b0 (cleanup e (react e sig st).1) (react e sig st).2.

(** The effects of the four components. *)
Inductive subsystem : effect -> Prop :=
| is_parallax present request : subsystem (parallax present request)
| is_ticker installed : subsystem (ticker installed)
| is_visibility hasIO : subsystem (visibility hasIO)
| is_autoplay installed : subsystem (autoplay installed)
| is_transitionEnd : subsystem transitionEnd
| is_reenable isAnimating : subsystem (reenable isAnimating)
| is_sectionObserver present : subsystem (sectionObserver present).

End Effects.

(** ** GalleryCarousel: what is rendered *)

Module CarouselView.
Import GalleryCarousel.

Section View.
Context {A : Type}.
Variable images : list A.

(** The slide that [index] points at in [slides], if any. *)
Definition slide_at (s : state) : option A :=
  if (index s <? 0)%Z then None
  else nth_error (slides images) (Z.to_nat (index s)).

(** The track's [width: `${slides.length * 100}%`], in percent of the
    viewport that clips it. *)
Definition trackWidth : Q := inject_Z (slen images) * 100.

(** A slide's [width: `${100 / slides.length}%`], in percent of the track. *)
Definition slideWidth : Q := 100 / inject_Z (slen images).

(** The number interpolated into
    [`translateX(-${index * (100 / slides.length)}%)`]; without slides the
    quotient is not finite. *)
Definition shift (s : state) : option Q :=
  if (slen images =? 0)%Z then None
  else Some (inject_Z (index s) * (100 / inject_Z (slen images))).

(** The [transform] text of the track. *)
Definition transform (s : state) : option (list piece) :=
  option_map (fun x => [Text "translateX(-"; Number x; Text "%)"]) (shift s).

(** The translation to the left that the text stands for, in percent of
    the track.  The minus sign belongs to the text, so the text is a
    length only when the number after it has no sign of its own: for a
    negative index it reads [translateX(--20%)], which is no transform,
    and the declaration is not applied. *)
Definition translateX (s : state) : option Q :=
  match shift s with
  | Some x => if Qle_bool 0 x then Some x else None
  | None => None
  end.

(** Left edge of slide [k] after the translation, in viewport widths. *)
Definition slide_left (s : state) (k : Z) : option Q :=
  option_map
    (fun t => (inject_Z k * slideWidth - t) / 100 * (trackWidth / 100))
    (translateX s).

(** The [transition] style. *)
Definition transition (s : state) : string :=
  if isAnimating s
  then "transform 600ms cubic-bezier(.22,.61,.36,1)"%string
  else "none"%string.

(** A dot is drawn dark when [i === realIndex]. *)
Definition dot_active (s : state) (i : nat) : bool :=
  (Z.of_nat i =? realIndex images s)%Z.
End View.

(** One autoplay round as the browser delivers it: the interval fires,
    the 600 ms transition ends, the next frame is rendered. *)
Definition autoplay_round : list event :=
  [IntervalTick; TransitionEnd; AnimationFrame].

Definition autoplay_rounds (k : nat) : list event :=
  List.concat (repeat autoplay_round k).

End CarouselView.

(** ** AutoScrollGallery: what is rendered *)

Module StripView.
Import AutoScrollGallery.

(** [loading={i < safeImages.length ? "eager" : "lazy"}] of card [i]. *)
Definition loading (images : value) (i : nat) : string :=
  if (i <? length (safeImages images))%nat then "eager"%string else "lazy"%string.

End StripView.

(** ** LogoMark (src/components/LogoMark.jsx) *)

Module LogoMark.

Record config : Type := mk_config {
  parallax : Q;      (* default 0.12 *)
  offsetY  : Q;      (* default 0 *)
  reduced  : bool    (* matchMedia("(prefers-reduced-motion: reduce)") *)
}.

(** The page, the two wrappers and the effect's locals.  [pageTop] is the
    top edge of [el.closest("section") || el.parentElement] on the page,
    [None] when there is no such container; [installed] tells whether the
    effect went past [if (!el || reduced) return]. *)
Record state : Type := mk_state {
  scrollY      : Q;
  pageTop      : option Q;
  installed    : bool;
  animated     : bool;              (* class "logo-anim" on the wrapper *)
  raf          : option Q;
  lastY        : Q;
  containerTop : Q;
  transform    : option (list piece)
}.

Inductive event : Type :=
| Scroll (y : Q)
| Resize (top : option Q)
| Frame.

Section Effect.
Variable cfg : config.

(** [container?.getBoundingClientRect().top + window.scrollY || 0]: without
    a container the sum is NaN and the result 0. *)
Definition getContainerTop (s : state) : Q :=
  match pageTop s with
  | Some top => (top - scrollY s) + scrollY s
  | None => 0
  end.

(** [`translateY(${offsetY + offset}px)`]. *)
Definition transform_of (offset : Q) : list piece :=
  [Text "translateY("; Number (offsetY cfg + offset); Text "px)"].

Definition onScroll (s : state) : state :=
  let y := scrollY s in
  if Qeq_bool y (lastY s) then s
  else
    {| scrollY := scrollY s; pageTop := pageTop s;
       installed := installed s; animated := animated s;
       raf := match raf s with
              | Some pending => Some pending
              | None => Some y
              end;
       lastY := y;
       containerTop := containerTop s;
       transform := transform s |}.

Definition onResize (s : state) : state :=
  onScroll
    {| scrollY := scrollY s; pageTop := pageTop s;
       installed := installed s; animated := animated s;
       raf := raf s;
       lastY := -1;
       containerTop := getContainerTop s;
       transform := transform s |}.

Definition onFrame (s : state) : state :=
  match raf s with
  | None => s
  | Some y =>
      let localY := y - containerTop s in
      let offset := localY * parallax cfg in
      {| scrollY := scrollY s; pageTop := pageTop s;
         installed := installed s; animated := animated s;
         raf := None;
         lastY := lastY s;
         containerTop := containerTop s;
         transform := Some (transform_of offset) |}
  end.

(** The effect body, with both wrappers rendered. *)
Definition mount (y : Q) (top : option Q) : state :=
  let s0 := {| scrollY := y; pageTop := top;
               installed := negb (reduced cfg);
               animated := negb (reduced cfg);
               raf := None; lastY := -1;
               containerTop := 0; transform := None |} in
  if reduced cfg then s0
  else
    onResize
      {| scrollY := y; pageTop := top;
         installed := true; animated := true;
         raf := None; lastY := -1;
         containerTop := getContainerTop s0;
         transform := None |}.

(** Without the listeners, scroll and resize only change the page. *)
Definition handle (s : state) (e : event) : state :=
  match e with
  | Scroll y =>
      let s' := {| scrollY := y; pageTop := pageTop s;
                   installed := installed s; animated := animated s;
                   raf := raf s; lastY := lastY s;
                   containerTop := containerTop s;
                   transform := transform s |} in
      if installed s then onScroll s' else s'
  | Resize top =>
      let s' := {| scrollY := scrollY s; pageTop := top;
                   installed := installed s; animated := animated s;
                   raf := raf s; lastY := lastY s;
                   containerTop := containerTop s;
                   transform := transform s |} in
      if installed s then onResize s' else s'
  | Frame => if installed s then onFrame s else s
  end.

Definition run (s : state) (es : list event) : state :=
  fold_left handle es s.
End Effect.

End LogoMark.

(** ** hexWithAlpha (src/App.jsx) *)

Module Colour.

#[local] Open Scope Z_scope.

(** One character of the class [[a-f\d]] under the [i] flag, with the
    value [parseInt] gives it in base 16. *)
Definition hex_value (c : ascii) : option Z :=
  let k := Z.of_nat (nat_of_ascii c) in
  if (48 <=? k) && (k <=? 57) then Some (k - 48)
  else if (97 <=? k) && (k <=? 102) then Some (k - 87)
  else if (65 <=? k) && (k <=? 70) then Some (k - 55)
  else None.

(** [parseInt(pair, 16)] on a captured pair of hex digits. *)
Definition channel (hi lo : ascii) : option Z :=
  match hex_value hi, hex_value lo with
  | Some h, Some l => Some (16 * h + l)
  | _, _ => None
  end.

(** The optional ["#"] of the pattern. *)
Definition strip_hash (s : string) : string :=
  match s with
  | String "#" rest => rest
  | _ => s
  end.

(** [/^#?([a-f\d]{2})([a-f\d]{2})([a-f\d]{2})$/i.exec(hex)] followed by
    the three [parseInt] calls. *)
Definition match_hex (hex : string) : option (Z * Z * Z) :=
  match strip_hash hex with
  | String r1 (String r2 (String g1 (String g2 (String b1 (String b2 EmptyString))))) =>
      match channel r1 r2, channel g1 g2, channel b1 b2 with
      | Some r, Some g, Some b => Some (r, g, b)
      | _, _, _ => None
      end
  | _ => None
  end.

(** [hexWithAlpha(hex, alpha)]: the input itself without a match, else
    [`rgba(${r}, ${g}, ${b}, ${alpha})`]. *)
Definition hexWithAlpha (hex : string) (alpha : Q) : list piece :=
  match match_hex hex with
  | None => [Text hex]
  | Some (r, g, b) =>
      [Text "rgba("; Number (inject_Z r); Text ", "; Number (inject_Z g);
       Text ", "; Number (inject_Z b); Text ", "; Number alpha; Text ")"]
  end.

(** ASCII upper case of a letter, other characters unchanged. *)
Definition upcase_ascii (c : ascii) : ascii :=
  let k := nat_of_ascii c in
  if ((97 <=? k) && (k <=? 122))%nat then ascii_of_nat (k - 32) else c.

Fixpoint upcase (s : string) : string :=
  match s with
  | EmptyString => EmptyString
  | String c rest => String (upcase_ascii c) (upcase rest)
  end.

(** Six hex digits. *)
Definition six_hex (s : string) : Prop :=
  String.length s = 6%nat
  /\ Forall (fun c => hex_value c <> None) (list_ascii_of_string s).

End Colour.

(** ** Navigation links of App (src/App.jsx) *)

Module NavLinks.
Import SectionObserver.

(** [navLink(id)]: [style: active === id ? activeCls : hoverCls]. *)
Definition is_active (active i : string) : bool := String.eqb active i.

(** The links of the header, one per section, with their highlight. *)
Definition highlights (secs : list section) (active : string) : list bool :=
  List.map (fun s => is_active active (id s)) secs.

End NavLinks.

(** ** Effects outside the four components *)

Module PageEffects.
Import Browser Effects.

(** *** LogoMark: the scroll effect *)

(** As [parallax_mount], after [if (!el || reduced) return]. *)
Definition logoMark_mount (installed request : bool) (b : browser) :
    option parallax_locals * browser :=
  if installed then
    let '(l, b') := parallax_install request b in (Some l, b')
  else (None, b).

(** The cleanup cancels the frame first, then removes the listeners. *)
Definition logoMark_cleanup (l : option parallax_locals) : list release :=
  match l with
  | None => []
  | Some l =>
      match raf l with
      | Some h => [ CancelAnimationFrame h ]
      | None => []
      end
      ++ [ RemoveEventListener "window" "scroll" (onScroll l);
           RemoveEventListener "window" "resize" (onResize l) ]
  end.

Definition logoMark (installed request : bool) : effect :=
  {| locals := option parallax_locals;
     mount := logoMark_mount installed request;
     react := parallax_react;
     cleanup := logoMark_cleanup |}.

(** *** App: the anchor click listener *)

Definition anchorClick_mount (b : browser) : positive * browser :=
  let '(onClick, b1) := fresh b in
  (onClick, addEventListener "document" "click" onClick b1).

Definition anchorClick : effect :=
  {| locals := positive;
     mount := anchorClick_mount;
     react := fun _ st => st;
     cleanup := fun onClick =>
       [ RemoveEventListener "document" "click" onClick ] |}.

Inductive page_effect : effect -> Prop :=
| is_logoMark installed request : page_effect (logoMark installed request)
| is_anchorClick : page_effect anchorClick.

(** The frame requests an effect holds according to its locals. *)
Definition parallax_pending (l : option parallax_locals) : gset positive :=
  match l with
  | Some l => match raf l with Some h => {[ h ]} | None => ∅ end
  | None => ∅
  end.

Definition ticker_pending (l : option ticker_locals) : gset positive :=
  match l with
  | Some l => {[ rafId l ]}
  | None => ∅
  end.

(** The pending frames of [b] are those of [b0] and the requests
    [pending], which were handed out after [b0]. *)
Definition holds_frames (b0 : browser) (pending : gset positive)
    (b : browser) : Prop :=
  (next b0 ≤ next b)%positive
  ∧ (∀ h, h ∈ pending → (next b0 ≤ h)%positive ∧ (h < next b)%positive)
  ∧ frames b = pending ∪ frames b0.

End PageEffects.

(** * Properties *)

(** ** GalleryCarousel *)

Section CarouselFacts.
Import GalleryCarousel.
#[local] Open Scope Z_scope.
Context {A : Type}.
Implicit Types (images : list A) (s : state).

Lemma slides_length images :
  images <> [] -> length (slides images) = S (S (length images)).
Proof.
  destruct images as [|a l]; [congruence|]. intros _.
  cbn [slides length]. rewrite length_app. cbn. lia.
Qed.

Lemma slen_nonempty images :
  (1 <= length images)%nat -> slen images = n images + 2.
Proof.
  intros H. unfold slen, n. rewrite slides_length.
  - lia.
  - intros ->. cbn in H. lia.
Qed.

Lemma slen_empty : slen (@nil A) = 0.
Proof. reflexivity. Qed.

(** The dot indicator is in range whenever the index is inside the
    clone-padded sequence. *)
Lemma realIndex_of_bounded_index images s :
  (1 <= length images)%nat ->
  index_in_bounds images s -> realIndex_in_bounds images s.
Proof.
  unfold index_in_bounds, realIndex_in_bounds, realIndex.
  intros Hn [Hlo Hhi].
  assert (Hpos : 0 < n images) by (unfold n; lia).
  destruct (Z.eqb_spec (n images) 0) as [E|_]; [lia|].
  destruct (Z.eq_dec (index s) 0) as [E0|Hne].
  - rewrite E0. replace (0 - 1 + n images) with (n images - 1) by lia.
    rewrite Z.rem_small by lia. lia.
  - pose proof (Z.rem_bound_pos (index s - 1 + n images) (n images)
                  ltac:(lia) Hpos) as Hb.
    lia.
Qed.

Lemma step_keeps_bounds images s e :
  (1 <= length images)%nat ->
  index_in_bounds images s -> settled images s e ->
  index_in_bounds images (step images s e).
Proof.
  intros Hn Hb He. unfold index_in_bounds in *.
  pose proof (slen_nonempty images Hn) as Hs.
  assert (Hpos : 1 <= n images) by (unfold n; lia).
  destruct e; cbn [step settled] in *.
  - unfold onInterval. destruct (autoplay_installed images s); cbn; lia.
  - unfold onEnd.
    destruct (Z.eqb_spec (index s) (slen images - 1)); cbn; [lia|].
    destruct (Z.eqb_spec (index s) 0); cbn; lia.
  - unfold onFrame. destruct (frame_pending s); cbn; lia.
  - cbn. lia.
  - unfold onDot. destruct (Nat.ltb_spec i (length images)); cbn;
      unfold n in *; lia.
  - cbn. lia.
  - cbn. lia.
Qed.

Lemma settled_run_keeps_bounds images es : forall s,
  (1 <= length images)%nat ->
  index_in_bounds images s -> settled_trace images s es ->
  index_in_bounds images (run images s es)
  /\ realIndex_in_bounds images (run images s es).
Proof.
  induction es as [|e es IH]; intros s Hn Hb Ht.
  - split; [exact Hb | now apply realIndex_of_bounded_index].
  - destruct Ht as [He Ht]. cbn [run fold_left].
    apply IH; auto using step_keeps_bounds.
Qed.

(** Presses of a button add up: nothing bounds the index. *)
Lemma go_repeat images dir k : forall s,
  index (run images s (repeat (Go dir) k)) = index s + dir * Z.of_nat k.
Proof.
  induction k as [|k IH]; intros s.
  - cbn. lia.
  - change (run images s (repeat (Go dir) (S k)))
      with (run images (step images s (Go dir)) (repeat (Go dir) k)).
    rewrite IH. cbn. lia.
Qed.
End CarouselFacts.

(** C3. With at least one image, a transition that ends on the trailing
    clone (index [n + 1]) snaps to index [1] with animation off, one that
    ends on the leading clone (index [0]) snaps to index [n] with animation
    off, and in both cases the next animation frame switches animation back
    on without moving the index. *)
Theorem carousel_snap_and_reenable {A : Type} (images : list A)
    (s : GalleryCarousel.state) :
  (1 <= length images)%nat ->
  let N := GalleryCarousel.n images in
  (GalleryCarousel.index s = (N + 1)%Z ->
     GalleryCarousel.step images s GalleryCarousel.TransitionEnd
       = GalleryCarousel.mk_state 1 false (GalleryCarousel.paused s)
     /\ GalleryCarousel.run images s
          [GalleryCarousel.TransitionEnd; GalleryCarousel.AnimationFrame]
       = GalleryCarousel.mk_state 1 true (GalleryCarousel.paused s))
  /\
  (GalleryCarousel.index s = 0%Z ->
     GalleryCarousel.step images s GalleryCarousel.TransitionEnd
       = GalleryCarousel.mk_state N false (GalleryCarousel.paused s)
     /\ GalleryCarousel.run images s
          [GalleryCarousel.TransitionEnd; GalleryCarousel.AnimationFrame]
       = GalleryCarousel.mk_state N true (GalleryCarousel.paused s)).
Proof.
  intros Hn N. pose proof (slen_nonempty images Hn) as Hs. fold N in Hs.
  assert (HN : (1 <= N)%Z) by (unfold N, GalleryCarousel.n; lia).
  split; intros Hi; cbn [GalleryCarousel.run GalleryCarousel.step fold_left];
    unfold GalleryCarousel.onEnd; rewrite Hi, Hs.
  - replace (N + 2 - 1)%Z with (N + 1)%Z by lia. rewrite Z.eqb_refl.
    split; reflexivity.
  - destruct (Z.eqb_spec 0 (N + 2 - 1)) as [E|_]; [lia|].
    cbn. replace (N + 2 - 2)%Z with N by lia. split; reflexivity.
Qed.

(** The snap at both clone slots of a three-image carousel. *)
Lemma carousel_snap_and_reenable_witness :
  (1 <= length ["a"; "b"; "c"]%string)%nat /\
  GalleryCarousel.run ["a"; "b"; "c"]%string
    (GalleryCarousel.mk_state 4 true false)
    [GalleryCarousel.TransitionEnd; GalleryCarousel.AnimationFrame]
  = GalleryCarousel.mk_state 1 true false.
Proof.
  split; [cbn; lia|].
  apply (carousel_snap_and_reenable ["a"; "b"; "c"]%string
           (GalleryCarousel.mk_state 4 true false)); [cbn; lia | reflexivity].
Defined.

(** C1. Four quick presses of the next button on a three-image carousel,
    with no transition end in between, leave the index at 5, past the last
    slot [n + 1 = 4]; a later transition end does not bring it back.  Five
    presses of the previous button leave the index at -4 and the dot
    indicator at -2.  For every image list, one press more than there are
    images takes the index from its initial value to [n + 2]. *)
Theorem carousel_rapid_navigation_leaves_bounds :
  (let images := ["a"; "b"; "c"]%string in
   let next4 := GalleryCarousel.run images GalleryCarousel.init
                  (repeat (GalleryCarousel.Go 1) 4) in
   let prev5 := GalleryCarousel.run images GalleryCarousel.init
                  (repeat (GalleryCarousel.Go (-1)) 5) in
   GalleryCarousel.index next4 = 5%Z
   /\ ~ GalleryCarousel.index_in_bounds images next4
   /\ GalleryCarousel.step images next4 GalleryCarousel.TransitionEnd = next4
   /\ GalleryCarousel.index prev5 = (-4)%Z
   /\ GalleryCarousel.realIndex images prev5 = (-2)%Z
   /\ ~ GalleryCarousel.realIndex_in_bounds images prev5)
  /\
  (forall (A : Type) (images : list A),
     let s := GalleryCarousel.run images GalleryCarousel.init
                (repeat (GalleryCarousel.Go 1) (S (length images))) in
     GalleryCarousel.index s = (GalleryCarousel.n images + 2)%Z
     /\ ~ GalleryCarousel.index_in_bounds images s).
Proof.
  split.
  - cbv zeta. repeat apply conj; try reflexivity.
    + intros [_ H]. vm_compute in H. apply H. reflexivity.
    + intros [H _]. vm_compute in H. apply H. reflexivity.
  - intros A images s.
    assert (E : GalleryCarousel.index s = (GalleryCarousel.n images + 2)%Z).
    { unfold s. rewrite go_repeat. unfold GalleryCarousel.n. cbn. lia. }
    split; [exact E|].
    unfold GalleryCarousel.index_in_bounds. rewrite E. lia.
Qed.

(** ** Remainder on rationals *)

Section RemainderFacts.
#[local] Open Scope Q_scope.

Lemma Qtrunc_nonneg (q : Q) : 0 <= q -> Qtrunc q = Qfloor q.
Proof.
  intros H. unfold Qtrunc.
  destruct (Qle_bool 0 q) eqn:E; [reflexivity|].
  apply Qle_bool_iff in H. congruence.
Qed.

(** For a non-negative dividend and a positive divisor the remainder
    lies in [[0, b)]. *)
Lemma js_rem_range (a b : Q) :
  0 <= a -> 0 < b -> 0 <= js_rem a b /\ js_rem a b < b.
Proof.
  intros Ha Hb. unfold js_rem.
  assert (Hq : 0 <= a / b).
  { apply Qle_shift_div_l; [exact Hb | lra]. }
  rewrite (Qtrunc_nonneg _ Hq).
  pose proof (Qfloor_le (a / b)) as Hlo.
  pose proof (Qlt_floor (a / b)) as Hhi.
  rewrite inject_Z_plus in Hhi.
  assert (Hab : a == b * (a / b)).
  { rewrite Qmult_div_r; [reflexivity | lra]. }
  set (k := inject_Z (Qfloor (a / b))) in *.
  set (q := a / b) in *.
  assert (H1 : 0 <= b * (q - k)).
  { apply Qmult_le_0_compat; lra. }
  assert (H2 : b * (q - k) < b * 1).
  { apply Qmult_lt_l; [exact Hb | change (inject_Z 1) with 1 in Hhi; lra]. }
  split; lra.
Qed.
End RemainderFacts.

(** ** AutoScrollGallery: the scroll offset *)

Section StripFacts.
Import AutoScrollGallery.
#[local] Open Scope Q_scope.
Variable cfg : config.
Implicit Types (s : state) (e : event).

(** [setIsPaused] never touches the element. *)
Lemma setIsPaused_element b now s :
  scrollLeft (setIsPaused cfg b now s) = scrollLeft s
  /\ scrollWidth (setIsPaused cfg b now s) = scrollWidth s.
Proof.
  unfold setIsPaused. destruct (Bool.eqb b (isPaused s)); split; reflexivity.
Qed.

Lemma onIntersection_element entries now : forall s,
  scrollLeft (onIntersection cfg entries now s) = scrollLeft s
  /\ scrollWidth (onIntersection cfg entries now s) = scrollWidth s.
Proof.
  unfold onIntersection. destruct (hasIntersectionObserver cfg); [|auto].
  induction entries as [|x xs IH]; intros s; [auto|].
  cbn [fold_left]. destruct x; [apply IH|].
  destruct (IH (setIsPaused cfg true now s)) as [-> ->].
  apply setIsPaused_element.
Qed.

Lemma half_positive (w : Q) : 0 < w -> 0 < w / 2.
Proof.
  intros H. assert (E : w / 2 == w * (1 # 2)) by reflexivity. lra.
Qed.

End StripFacts.

(** ** AutoScrollGallery on the scroll container: the offset *)

Section ContainerFacts.
Import ScrollContainer.
#[local] Open Scope Q_scope.
Variable cfg : AutoScrollGallery.config.
Implicit Types (s : state) (e : event).

Lemma maxScroll_cases sw cw :
  (0 <= sw - cw /\ maxScroll sw cw = sw - cw)
  \/ (sw - cw < 0 /\ maxScroll sw cw = 0).
Proof.
  unfold maxScroll. destruct (Qle_bool 0 (sw - cw)) eqn:E.
  - left. apply Qle_bool_iff in E. auto.
  - right. split; [|reflexivity].
    apply Qnot_le_lt. intros H. apply Qle_bool_iff in H. congruence.
Qed.

Lemma maxScroll_nonneg sw cw : 0 <= maxScroll sw cw.
Proof.
  destruct (maxScroll_cases sw cw) as [[H ->]|[_ ->]]; [exact H | apply Qle_refl].
Qed.

(** The element keeps every offset inside its scrollable range. *)
Lemma clamp_range sw cw x :
  0 <= clamp sw cw x /\ clamp sw cw x <= maxScroll sw cw.
Proof.
  pose proof (maxScroll_nonneg sw cw) as Hm. unfold clamp.
  destruct (Qle_bool 0 x) eqn:E0; [|split; [apply Qle_refl | exact Hm]].
  apply Qle_bool_iff in E0.
  destruct (Qle_bool x (maxScroll sw cw)) eqn:E1.
  - apply Qle_bool_iff in E1. auto.
  - split; [exact Hm | apply Qle_refl].
Qed.

(** An offset inside the range is stored as it is. *)
Lemma clamp_inside sw cw x :
  0 <= x -> x <= maxScroll sw cw -> clamp sw cw x = x.
Proof.
  intros H0 H1. unfold clamp.
  apply Qle_bool_iff in H0. apply Qle_bool_iff in H1.
  now rewrite H0, H1.
Qed.

Lemma js_rem_le (a b : Q) : 0 <= a -> 0 < b -> js_rem a b <= a.
Proof.
  intros Ha Hb. unfold js_rem.
  assert (Hq : 0 <= a / b) by (apply Qle_shift_div_l; [exact Hb | lra]).
  rewrite (Qtrunc_nonneg _ Hq).
  assert (Hk : 0 <= inject_Z (Qfloor (a / b))).
  { change 0 with (inject_Z 0). rewrite <- Zle_Qle.
    change 0%Z with (Qfloor 0). now apply Qfloor_resp_le. }
  assert (0 <= b * inject_Z (Qfloor (a / b)))
    by (apply Qmult_le_0_compat; lra).
  lra.
Qed.

(** One tick of the unpaused strip: the element keeps the offset asked
    for inside its range, and the half-width comes off once if reached. *)
Lemma container_step_offset ts s prev :
  ticker s = Some prev -> isPaused s = false -> 0 < scrollWidth (el s) ->
  let asked :=
    scrollLeft (el s) + AutoScrollGallery.speed cfg / 1000 * Qmin (ts - prev) 50 in
  let kept := clamp (scrollWidth (el s)) (clientWidth (el s)) asked in
  let half := scrollWidth (el s) / 2 in
  scrollLeft (el (step cfg ts s))
    = (if Qle_bool half kept then kept - half else kept)
  /\ scrollWidth (el (step cfg ts s)) = scrollWidth (el s)
  /\ clientWidth (el (step cfg ts s)) = clientWidth (el s)
  /\ isPaused (step cfg ts s) = false
  /\ ticker (step cfg ts s) = Some ts.
Proof.
  intros Ht Hp Hw asked kept half. unfold step. rewrite Ht, Hp.
  cbn [el isPaused ticker set_scrollLeft scrollLeft scrollWidth clientWidth].
  fold asked. fold kept. fold half.
  destruct (Qle_bool half kept) eqn:E;
    cbn [set_scrollLeft scrollLeft scrollWidth clientWidth];
    repeat split.
  apply Qle_bool_iff in E.
  pose proof (half_positive _ Hw) as Hh. fold half in Hh.
  destruct (clamp_range (scrollWidth (el s)) (clientWidth (el s)) asked)
    as [_ Hk]. fold kept in Hk.
  apply clamp_inside; lra.
Qed.

Lemma container_step_keeps ts s :
  laid_out s -> in_first_half s -> ticker s <> None ->
  laid_out (step cfg ts s) /\ in_first_half (step cfg ts s)
  /\ ticker (step cfg ts s) <> None.
Proof.
  intros (Hsw & Hcw & Hlo & Hhi) Hin Ht.
  destruct (ticker s) as [prev|] eqn:Hp; [|congruence].
  destruct (isPaused s) eqn:Hpause.
  { unfold step. rewrite Hp, Hpause. cbn.
    repeat split; try discriminate; try assumption; apply Hin. }
  destruct (container_step_offset ts s prev Hp Hpause Hsw)
    as (Eo & Ew & Ec & _ & Et).
  cbv zeta in Eo.
  set (asked := scrollLeft (el s)
                + AutoScrollGallery.speed cfg / 1000 * Qmin (ts - prev) 50) in *.
  set (kept := clamp (scrollWidth (el s)) (clientWidth (el s)) asked) in *.
  destruct (clamp_range (scrollWidth (el s)) (clientWidth (el s)) asked)
    as [Hk0 Hk1]. fold kept in Hk0, Hk1.
  pose proof (half_positive _ Hsw) as Hh.
  assert (Eh : scrollWidth (el s) / 2 == scrollWidth (el s) * (1 # 2))
    by reflexivity.
  unfold laid_out, in_first_half. rewrite Eo, Ew, Ec, Et.
  destruct (Qle_bool (scrollWidth (el s) / 2) kept) eqn:E.
  - apply Qle_bool_iff in E.
    destruct (maxScroll_cases (scrollWidth (el s)) (clientWidth (el s)))
      as [[Hm Em]|[Hm Em]]; rewrite Em in *.
    + repeat split; try discriminate; try assumption; lra.
    + lra.
  - assert (Hlt : kept < scrollWidth (el s) / 2).
    { apply Qnot_le_lt. intros H. apply Qle_bool_iff in H. congruence. }
    repeat split; try discriminate; assumption.
Qed.









(** While every assigned offset is inside the scrollable range, the tick
    is the one of [AutoScrollGallery.step]. *)
Lemma container_step_inside ts s prev :
  ticker s = Some prev -> 0 < scrollWidth (el s) ->
  let asked :=
    scrollLeft (el s) + AutoScrollGallery.advance cfg prev ts in
  0 <= asked ->
  asked <= maxScroll (scrollWidth (el s)) (clientWidth (el s)) ->
  forget (step cfg ts s) = AutoScrollGallery.step cfg ts (forget s).
Proof.
  intros Ht Hw asked H0 H1.
  unfold AutoScrollGallery.step, forget.
  cbn [AutoScrollGallery.ticker AutoScrollGallery.isPaused
       AutoScrollGallery.scrollLeft AutoScrollGallery.scrollWidth].
  rewrite Ht. fold asked.
  destruct (isPaused s) eqn:Hp.
  { unfold step. rewrite Ht, Hp. reflexivity. }
  destruct (container_step_offset ts s prev Ht Hp Hw) as (Eo & Ew & _ & Ep & Et).
  cbv zeta in Eo. rewrite Eo, Ew, Ep, Et.
  change (scrollLeft (el s)
          + AutoScrollGallery.speed cfg / 1000 * Qmin (ts - prev) 50)
    with asked.
  rewrite (clamp_inside _ _ asked H0 H1). reflexivity.
Qed.

(** For an offset inside the range the resize callback is the one of
    [AutoScrollGallery.onResize]. *)
Lemma container_onResize_inside s :
  0 <= scrollLeft (el s) ->
  scrollLeft (el s) <= maxScroll (scrollWidth (el s)) (clientWidth (el s)) ->
  forget (onResize s)
  = AutoScrollGallery.onResize (scrollWidth (el s)) (forget s).
Proof.
  intros H0 H1. unfold onResize, AutoScrollGallery.onResize, forget.
  cbn [AutoScrollGallery.ticker AutoScrollGallery.isPaused
       AutoScrollGallery.scrollLeft AutoScrollGallery.scrollWidth].
  destruct (ticker s) as [prev|] eqn:Hp; [|now rewrite Hp].
  destruct (Qle_bool (scrollWidth (el s) / 2) 0) eqn:E;
    cbn [negb el isPaused ticker set_scrollLeft scrollLeft scrollWidth];
    [now rewrite Hp|].
  assert (Hh : 0 < scrollWidth (el s) / 2).
  { apply Qnot_le_lt. intros H. apply Qle_bool_iff in H. congruence. }
  destruct (js_rem_range _ _ H0 Hh) as [Hr0 _].
  pose proof (js_rem_le _ _ H0 Hh) as Hr1.
  rewrite clamp_inside by lra. reflexivity.
Qed.
End ContainerFacts.




(** ** AutoScrollGallery: pausing, short lists, reduced motion *)

Section StripStatic.
Import AutoScrollGallery.
#[local] Open Scope Q_scope.
Variable cfg : config.
Implicit Types (s : state) (e : event).

Lemma setIsPaused_ticker_off b now s :
  ticker_installed cfg = false -> ticker s = None ->
  ticker (setIsPaused cfg b now s) = None.
Proof.
  intros Hi Hn. unfold setIsPaused.
  destruct (Bool.eqb b (isPaused s)); [exact Hn|]. cbn. now rewrite Hi.
Qed.

Lemma onIntersection_ticker_off entries now : forall s,
  ticker_installed cfg = false -> ticker s = None ->
  ticker (onIntersection cfg entries now s) = None.
Proof.
  unfold onIntersection. destruct (hasIntersectionObserver cfg); [|auto].
  induction entries as [|x xs IH]; intros s Hi Hn; [exact Hn|].
  cbn [fold_left]. destruct x; apply IH; auto using setIsPaused_ticker_off.
Qed.

(** Without a ticker only an arrow click moves the element. *)
Lemma ticker_off_handle s e :
  ticker_installed cfg = false -> ticker s = None -> is_arrow e = false ->
  scrollLeft (handle cfg s e) = scrollLeft s
  /\ ticker (handle cfg s e) = None.
Proof.
  intros Hi Hn Ha.
  destruct e as [ts|w|entries now|now|now|dir cw mx];
    cbn [handle is_arrow] in *; try discriminate.
  - unfold step. rewrite Hn. auto.
  - unfold onResize. cbn. rewrite Hn. auto.
  - split; [apply onIntersection_element | now apply onIntersection_ticker_off].
  - destruct (pauseOnHover cfg); [|auto].
    split; [apply setIsPaused_element | now apply setIsPaused_ticker_off].
  - destruct (pauseOnHover cfg); [|auto].
    split; [apply setIsPaused_element | now apply setIsPaused_ticker_off].
Qed.

Lemma ticker_off_run es : forall s,
  ticker_installed cfg = false -> ticker s = None ->
  forallb (fun e => negb (is_arrow e)) es = true ->
  scrollLeft (run cfg s es) = scrollLeft s.
Proof.
  induction es as [|e es IH]; intros s Hi Hn Ha; [reflexivity|].
  cbn [forallb] in Ha. apply andb_prop in Ha as [He Ha].
  apply negb_true_iff in He.
  destruct (ticker_off_handle s e Hi Hn He) as [E1 E2].
  cbn [run fold_left]. fold (run cfg (handle cfg s e) es).
  rewrite IH; auto.
Qed.

(** Without a loop the arrow buttons are not rendered either. *)
Lemma no_loop_arrow s dir cw mx :
  hasLoop (images cfg) = false -> handle cfg s (Arrow dir cw mx) = s.
Proof.
  intros H. cbn [handle]. rewrite H, andb_false_r. reflexivity.
Qed.

Lemma no_loop_run es : forall s,
  hasLoop (images cfg) = false -> ticker s = None ->
  scrollLeft (run cfg s es) = scrollLeft s.
Proof.
  intros s Hl. revert s.
  assert (Hi : ticker_installed cfg = false)
    by (unfold ticker_installed; now rewrite Hl).
  induction es as [|e es IH]; intros s Hn; [reflexivity|].
  cbn [run fold_left]. fold (run cfg (handle cfg s e) es).
  destruct (is_arrow e) eqn:Ha.
  - destruct e; try discriminate. rewrite no_loop_arrow by assumption.
    now apply IH.
  - destruct (ticker_off_handle s e Hi Hn Ha) as [E1 E2].
    rewrite IH; auto.
Qed.

(** The observer callback can pause but never resume. *)
Lemma setIsPaused_true now s :
  isPaused (setIsPaused cfg true now s) = true.
Proof.
  unfold setIsPaused. destruct (isPaused s) eqn:E; cbn; auto.
Qed.

Lemma onIntersection_keeps_pause entries now : forall s,
  isPaused s = true -> isPaused (onIntersection cfg entries now s) = true.
Proof.
  unfold onIntersection. destruct (hasIntersectionObserver cfg); [|auto].
  induction entries as [|x xs IH]; intros s Hs; [exact Hs|].
  cbn [fold_left]. destruct x; apply IH; [exact Hs|].
  apply setIsPaused_true.
Qed.
End StripStatic.

(** C5. The gallery of the page scrolls, leaves the viewport and comes
    back: the observer callback pauses it on the first report and does
    nothing on the second, so it is still paused, and later frames leave
    the offset where it was.  Whatever the speed, the width and the later
    report, the gallery is paused after it. *)
Theorem strip_not_resumed_when_visible_again :
  (let cfg := AutoScrollGallery.app_gallery 70 false in
   let s0 := AutoScrollGallery.run cfg (AutoScrollGallery.mount cfg 0 3024)
               [AutoScrollGallery.Frame 16; AutoScrollGallery.Frame 32] in
   let hidden :=
     AutoScrollGallery.handle cfg s0 (AutoScrollGallery.Intersection [false] 40) in
   let shown :=
     AutoScrollGallery.handle cfg hidden (AutoScrollGallery.Intersection [true] 900) in
   AutoScrollGallery.isPaused s0 = false
   /\ AutoScrollGallery.isPaused hidden = true
   /\ AutoScrollGallery.isPaused shown = true
   /\ AutoScrollGallery.scrollLeft shown = AutoScrollGallery.scrollLeft s0
   /\ AutoScrollGallery.scrollLeft
        (AutoScrollGallery.run cfg shown
           [AutoScrollGallery.Frame 916; AutoScrollGallery.Frame 932])
      = AutoScrollGallery.scrollLeft s0)
  /\
  (forall speed reduced width entries t0 t1 t2,
     let cfg := AutoScrollGallery.app_gallery speed reduced in
     AutoScrollGallery.isPaused
       (AutoScrollGallery.run cfg (AutoScrollGallery.mount cfg t0 width)
          [AutoScrollGallery.Intersection [false] t1;
           AutoScrollGallery.Intersection entries t2])
     = true).
Proof.
  split.
  - cbv zeta. repeat apply conj; vm_compute; reflexivity.
  - intros speed reduced width entries t0 t1 t2 cfg.
    cbn [AutoScrollGallery.run fold_left AutoScrollGallery.handle].
    apply onIntersection_keeps_pause.
    unfold AutoScrollGallery.onIntersection. cbn. reflexivity.
Qed.

(** C6, as amended.  When fewer than two images survive normalisation,
    the strip renders the list once, installs no ticker, and no event at
    all moves its offset from zero.  The carousel with no image has no
    slide, installs no autoplay interval, and shows dot position zero. *)
Theorem short_lists_are_static
    (cfg : AutoScrollGallery.config) (A : Type) :
  (length (AutoScrollGallery.safeImages (AutoScrollGallery.images cfg)) < 2)%nat ->
  (AutoScrollGallery.hasLoop (AutoScrollGallery.images cfg) = false
   /\ AutoScrollGallery.track (AutoScrollGallery.images cfg)
      = AutoScrollGallery.safeImages (AutoScrollGallery.images cfg)
   /\ AutoScrollGallery.ticker_installed cfg = false
   /\ forall now width es,
        AutoScrollGallery.scrollLeft
          (AutoScrollGallery.run cfg (AutoScrollGallery.mount cfg now width) es)
        = 0%Q)
  /\
  (GalleryCarousel.slides (@nil A) = []
   /\ forall s,
        GalleryCarousel.autoplay_installed (@nil A) s = false
        /\ GalleryCarousel.step (@nil A) s GalleryCarousel.IntervalTick = s
        /\ GalleryCarousel.realIndex (@nil A) s = 0%Z).
Proof.
  intros Hlen.
  assert (Hl : AutoScrollGallery.hasLoop (AutoScrollGallery.images cfg) = false).
  { unfold AutoScrollGallery.hasLoop. apply Nat.leb_gt. exact Hlen. }
  assert (Hi : AutoScrollGallery.ticker_installed cfg = false).
  { unfold AutoScrollGallery.ticker_installed. now rewrite Hl. }
  split.
  - split; [exact Hl|]. split.
    { unfold AutoScrollGallery.track. now rewrite Hl. }
    split; [exact Hi|].
    intros now width es. rewrite no_loop_run; [reflexivity | exact Hl |].
    unfold AutoScrollGallery.mount. cbn. now rewrite Hi.
  - split; [reflexivity|]. intros s.
    assert (Ha : GalleryCarousel.autoplay_installed (@nil A) s = false).
    { unfold GalleryCarousel.autoplay_installed.
      change (GalleryCarousel.slen (@nil A)) with 0%Z. cbn.
      now rewrite orb_true_r. }
    split; [exact Ha|]. split; [|reflexivity].
    cbn [GalleryCarousel.step]. unfold GalleryCarousel.onInterval.
    now rewrite Ha.
Qed.

(** A single URL: one card, no ticker, the offset never moves. *)
Lemma short_lists_are_static_witness :
  let cfg := AutoScrollGallery.mk_config
    (AutoScrollGallery.VArray [AutoScrollGallery.VString "only.jpg"])
    60 true true false true in
  (length (AutoScrollGallery.safeImages (AutoScrollGallery.images cfg)) < 2)%nat
  /\ length (AutoScrollGallery.track (AutoScrollGallery.images cfg)) = 1%nat
  /\ AutoScrollGallery.scrollLeft
       (AutoScrollGallery.run cfg (AutoScrollGallery.mount cfg 0 200)
          [AutoScrollGallery.Frame 16; AutoScrollGallery.Arrow 1 180 0;
           AutoScrollGallery.Frame 32])
     = 0%Q.
Proof.
  intros cfg.
  assert (H : (length (AutoScrollGallery.safeImages
                         (AutoScrollGallery.images cfg)) < 2)%nat)
    by (cbn; lia).
  destruct (short_lists_are_static cfg string H) as [(_ & Ht & _ & Hrun) _].
  split; [exact H|]. split; [rewrite Ht; reflexivity | apply Hrun].
Defined.

(** C6 as stated fails for the carousel: a single image is padded to three
    slides, the autoplay interval is installed, and a tick moves the
    index. *)
Lemma carousel_singleton_still_autoplays :
  let images := ["only.jpg"]%string in
  GalleryCarousel.slides images = ["only.jpg"; "only.jpg"; "only.jpg"]%string
  /\ GalleryCarousel.autoplay_installed images GalleryCarousel.init = true
  /\ GalleryCarousel.index
       (GalleryCarousel.step images GalleryCarousel.init
          GalleryCarousel.IntervalTick) = 2%Z.
Proof. cbv zeta. repeat apply conj; reflexivity. Qed.

(** ** AutoScrollGallery: normalisation of the images prop *)

Section Normalisation.
Import AutoScrollGallery.

Lemma normalize_truthy v : truthy v = true -> truthy (normalize v) = true.
Proof. destruct v; cbn; auto. Qed.

Lemma normalize_not_string v s : normalize v <> VString s.
Proof. destruct v; cbn; discriminate. Qed.



End Normalisation.




(** C4. With the reduced-motion preference set, the strip installs no
    ticker and no number of frames moves its offset, and its arrows and
    the carousel's buttons still work; the carousel's autoplay effect has
    no reduced-motion input: its interval is installed and two ticks move
    the index from 1 to 3. *)
Theorem reduced_motion_carousel_still_autoplays :
  let strip := AutoScrollGallery.app_gallery 70 true in
  let photos := ["a.jpg"; "b.jpg"; "c.jpg"]%string in
  AutoScrollGallery.reduced strip = true
  /\ AutoScrollGallery.ticker_installed strip = false
  /\ (forall now width tss,
        AutoScrollGallery.scrollLeft
          (AutoScrollGallery.run strip (AutoScrollGallery.mount strip now width)
             (List.map AutoScrollGallery.Frame tss)) = 0%Q)
  /\ AutoScrollGallery.scrollLeft
       (AutoScrollGallery.handle strip (AutoScrollGallery.mount strip 0 3024)
          (AutoScrollGallery.Arrow 1 240 12)) = 252%Q
  /\ GalleryCarousel.index
       (GalleryCarousel.step photos GalleryCarousel.init (GalleryCarousel.Go 1))
     = 2%Z
  /\ GalleryCarousel.autoplay_installed photos GalleryCarousel.init = true
  /\ GalleryCarousel.index
       (GalleryCarousel.run photos GalleryCarousel.init
          [GalleryCarousel.IntervalTick; GalleryCarousel.IntervalTick])
     = 3%Z.
Proof.
  cbv zeta. repeat apply conj; try reflexivity.
  intros now width tss.
  rewrite ticker_off_run; try reflexivity.
  induction tss as [|t ts IH]; [reflexivity | exact IH].
Qed.

(** ** useParallaxRelative *)

Section ParallaxFacts.
Import Parallax.
#[local] Open Scope Q_scope.
Variable cfg : config.
Implicit Types (s : state).

Lemma getContainerTop_absolute s : getContainerTop s == pageTop s.
Proof. unfold getContainerTop, rectTop. ring. Qed.


Lemma resize_recomputes s top :
  containerTop (handle cfg s (Resize top)) == top.
Proof.
  cbn [handle]. unfold onResize, onScroll.
  destruct (reduced cfg); [cbn; apply getContainerTop_absolute|].
  cbn. destruct (Qeq_bool _ _); cbn; unfold getContainerTop, rectTop; cbn; ring.
Qed.

End ParallaxFacts.




(** ** Section observer *)

Section ObserverFacts.
Import SectionObserver.
Implicit Types (active : string) (entries : list entry).

Lemma callback_app active entries1 entries2 :
  callback active (entries1 ++ entries2)
  = callback (callback active entries1) entries2.
Proof. unfold callback. apply fold_left_app. Qed.

(** Entries that do not intersect leave the active id alone. *)
Lemma callback_no_intersection entries : forall active,
  Forall (fun e => isIntersecting e = false) entries ->
  callback active entries = active.
Proof.
  induction entries as [|e es IH]; intros active H; [reflexivity|].
  inversion H as [|? ? He Hes]; subst.
  unfold callback in *. cbn [fold_left]. rewrite He. now apply IH.
Qed.

(** Last intersecting entry of a batch wins. *)
Lemma callback_last_wins active before e after :
  isIntersecting e = true ->
  Forall (fun x => isIntersecting x = false) after ->
  callback active (before ++ e :: after) = target e.
Proof.
  intros He Hafter. rewrite callback_app.
  change (e :: after) with ([e] ++ after). rewrite callback_app.
  rewrite callback_no_intersection by assumption.
  unfold callback. cbn. now rewrite He.
Qed.
End ObserverFacts.

(** C8.  For every list of sections whose elements are in the document:
    a report that one of them now intersects the band makes its id the
    active one, whatever was active before and whatever batches came
    earlier; within a batch the last intersecting entry wins, and entries
    that do not intersect change nothing.  With sections A, B, C: B
    entering makes the state "B", then C entering makes it "C". *)
Theorem section_observer_last_event_wins
    (document : list string) (secs : list SectionObserver.section)
    (active : string) (earlier : list (list SectionObserver.entry))
    (before after : list SectionObserver.entry)
    (e : SectionObserver.entry) :
  In (SectionObserver.target e) (List.map SectionObserver.id secs) ->
  In (SectionObserver.target e) document ->
  SectionObserver.isIntersecting e = true ->
  Forall (fun x => SectionObserver.isIntersecting x = false) after ->
  SectionObserver.deliver document secs active [e] = SectionObserver.target e
  /\ SectionObserver.deliver document secs active (before ++ e :: after)
     = SectionObserver.target e
  /\ SectionObserver.run document secs active
       (earlier ++ [before ++ e :: after])
     = SectionObserver.target e
  /\ SectionObserver.deliver document secs active after = active
  /\ (let abc := [ SectionObserver.mk_section "A" "a";
                   SectionObserver.mk_section "B" "b";
                   SectionObserver.mk_section "C" "c" ]%string in
      let doc := ["A"; "B"; "C"]%string in
      SectionObserver.run doc abc "A"
        [[SectionObserver.mk_entry "B" true]] = "B"%string
      /\ SectionObserver.run doc abc "A"
           [[SectionObserver.mk_entry "B" true];
            [SectionObserver.mk_entry "C" true]] = "C"%string).
Proof.
  intros Hsec Hdoc He Hafter.
  assert (Hobs : bool_decide
            (SectionObserver.target e ∈ SectionObserver.observed document secs)
          = true).
  { apply bool_decide_eq_true. unfold SectionObserver.observed.
    apply list_elem_of_In, filter_In. split; [exact Hsec|].
    apply bool_decide_eq_true, list_elem_of_In. exact Hdoc. }
  assert (Hfilter : forall l,
            Forall (fun x => SectionObserver.isIntersecting x = false) l ->
            Forall (fun x => SectionObserver.isIntersecting x = false)
              (List.filter
                 (fun x => bool_decide
                    (SectionObserver.target x
                       ∈ SectionObserver.observed document secs)) l)).
  { intros l Hl. rewrite List.Forall_forall in *. intros x Hx.
    apply filter_In in Hx as [Hx _]. auto. }
  assert (Hbatch : forall a,
            SectionObserver.deliver document secs a (before ++ e :: after)
            = SectionObserver.target e).
  { intros a. unfold SectionObserver.deliver.
    rewrite List.filter_app. cbn [List.filter]. rewrite Hobs.
    apply callback_last_wins; auto. }
  split; [|split; [|split; [|split]]].
  - unfold SectionObserver.deliver.
    cbn [List.filter]. rewrite Hobs. unfold SectionObserver.callback. cbn.
    now rewrite He.
  - apply Hbatch.
  - unfold SectionObserver.run. rewrite fold_left_app. cbn [fold_left].
    apply Hbatch.
  - unfold SectionObserver.deliver. apply callback_no_intersection. auto.
  - cbv zeta. split; vm_compute; reflexivity.
Qed.

(** The page's own sections: "process" enters while "services" is active. *)
Lemma section_observer_last_event_wins_witness :
  SectionObserver.deliver
    ["services"; "process"; "gallery"; "contact"]%string
    SectionObserver.sections SectionObserver.init
    [SectionObserver.mk_entry "process" true]
  = "process"%string.
Proof.
  apply (section_observer_last_event_wins
           ["services"; "process"; "gallery"; "contact"]%string
           SectionObserver.sections SectionObserver.init [] [] []
           (SectionObserver.mk_entry "process" true)).
  - cbn. tauto.
  - cbn. tauto.
  - reflexivity.
  - constructor.
Defined.

(** ** Teardown *)

#[local] Set Warnings "-clear-no-such-hyp".

Section TeardownFacts.
Import Browser.
#[local] Open Scope positive_scope.
Implicit Types (b : browser) (r : release) (rs : list release).

Lemma browser_eq b1 b2 :
  next b1 = next b2 -> frames b1 = frames b2 ->
  intervals b1 = intervals b2 -> listeners b1 = listeners b2 ->
  observing b1 = observing b2 -> b1 = b2.
Proof. destruct b1, b2; cbn; intros; subst; reflexivity. Qed.

Lemma teardown_next rs : forall b, next (teardown rs b) = next b.
Proof.
  induction rs as [|r rs IH]; intros b; [reflexivity|].
  cbn [teardown fold_left]. fold (teardown rs (perform b r)).
  rewrite IH. destruct r; reflexivity.
Qed.

Lemma teardown_frames rs : forall b h,
  h ∈ frames (teardown rs b) ↔ h ∈ frames b ∧ CancelAnimationFrame h ∉ rs.
Proof.
  induction rs as [|r rs IH]; intros b h.
  - cbn. set_solver.
  - cbn [teardown fold_left]. fold (teardown rs (perform b r)).
    rewrite IH, not_elem_of_cons. destruct r; cbn; set_solver.
Qed.

Lemma teardown_intervals rs : forall b h,
  h ∈ intervals (teardown rs b) ↔ h ∈ intervals b ∧ ClearInterval h ∉ rs.
Proof.
  induction rs as [|r rs IH]; intros b h.
  - cbn. set_solver.
  - cbn [teardown fold_left]. fold (teardown rs (perform b r)).
    rewrite IH, not_elem_of_cons. destruct r; cbn; set_solver.
Qed.

Lemma teardown_listeners rs : forall b l,
  l ∈ listeners (teardown rs b) ↔
  l ∈ listeners b ∧ RemoveEventListener l.1.1 l.1.2 l.2 ∉ rs.
Proof.
  induction rs as [|r rs IH]; intros b [[t ty] cb].
  - cbn. set_solver.
  - cbn [teardown fold_left]. fold (teardown rs (perform b r)).
    rewrite IH, not_elem_of_cons. destruct r; cbn; set_solver.
Qed.

Lemma teardown_observing rs : forall b p,
  p ∈ observing (teardown rs b) ↔ p ∈ observing b ∧ Disconnect p.1 ∉ rs.
Proof.
  induction rs as [|r rs IH]; intros b [o t].
  - cbn. set_solver.
  - cbn [teardown fold_left]. fold (teardown rs (perform b r)).
    rewrite IH, not_elem_of_cons. destruct r; cbn; set_solver.
Qed.

(** Running the same release calls again changes nothing. *)
Lemma teardown_twice rs b : teardown rs (teardown rs b) = teardown rs b.
Proof.
  apply browser_eq.
  - now rewrite !teardown_next.
  - apply set_eq. intros h. rewrite !teardown_frames. tauto.
  - apply set_eq. intros h. rewrite !teardown_intervals. tauto.
  - apply set_eq. intros l. rewrite !teardown_listeners. tauto.
  - apply set_eq. intros p. rewrite !teardown_observing. tauto.
Qed.
End TeardownFacts.

Section Restore.
Import Browser.
#[local] Open Scope positive_scope.

(** After the cleanup calls the tables are those from before the mount. *)
Lemma owned_restores b0 rs b :
  well_formed b0 -> owned b0 rs b -> tables (teardown rs b) = tables b0.
Proof.
  intros (Wf & Wi & Wl & Wo) (Hn & Hfresh & Hf & Hi & Hl & Ho).
  rewrite Forall_forall in Hfresh.
  assert (E1 : frames (teardown rs b) = frames b0).
  { apply set_eq. intros h. rewrite teardown_frames, Hf. split.
    - intros [[Hh|[_ Hc]] Hr]; [exact Hh | contradiction].
    - intros Hh. split; [now left|]. intros Hr.
      specialize (Hfresh _ Hr). specialize (Wf _ Hh). cbn in Hfresh. lia. }
  assert (E2 : intervals (teardown rs b) = intervals b0).
  { apply set_eq. intros h. rewrite teardown_intervals, Hi. split.
    - intros [[Hh|[_ Hc]] Hr]; [exact Hh | contradiction].
    - intros Hh. split; [now left|]. intros Hr.
      specialize (Hfresh _ Hr). specialize (Wi _ Hh). cbn in Hfresh. lia. }
  assert (E3 : listeners (teardown rs b) = listeners b0).
  { apply set_eq. intros l. rewrite teardown_listeners, Hl. split.
    - intros [[Hh|[_ Hc]] Hr]; [exact Hh | contradiction].
    - intros Hh. split; [now left|]. intros Hr.
      specialize (Hfresh _ Hr). specialize (Wl _ Hh). cbn in Hfresh. lia. }
  assert (E4 : observing (teardown rs b) = observing b0).
  { apply set_eq. intros p. rewrite teardown_observing, Ho. split.
    - intros [[Hh|[_ Hc]] Hr]; [exact Hh | contradiction].
    - intros Hh. split; [now left|]. intros Hr.
      specialize (Hfresh _ Hr). specialize (Wo _ Hh). cbn in Hfresh. lia. }
  unfold tables. now rewrite E1, E2, E3, E4.
Qed.

Lemma owned_initial b0 : owned b0 [] b0.
Proof. unfold owned. split; [lia|]. split; [constructor|]. set_solver. Qed.
End Restore.

Section EffectsRespect.
Import Browser Effects.
#[local] Open Scope positive_scope.

(** The handles named by the cleanup calls, as arithmetic facts. *)
#[local] Ltac handles :=
  repeat match goal with
         | H : Forall _ (_ :: _) |- _ => apply Forall_cons in H as [? ?]
         | H : Forall _ [] |- _ => clear H
         end;
  cbn in *.

(** One table: instantiate its bookkeeping fact and decide membership. *)
#[local] Ltac table_with H x :=
  let Hx := fresh "Hx" in
  pose proof (H x) as Hx;
  repeat match goal with H' : ∀ _, _ ↔ _ |- _ => clear H' end;
  first [ destruct x as [[? ?] ?] | destruct x as [? ?] | idtac ];
  set_unfold; cbn in *; naive_solver.

#[local] Ltac table :=
  first
    [ assumption
    | let x := fresh "x" in
      intros x;
      lazymatch goal with
      | H : ∀ _, _ ↔ _ |- _ =>
          match goal with
          | H : ∀ _, _ ↔ _ |- context [frames] =>
              lazymatch type of H with context [frames] => table_with H x end
          | H : ∀ _, _ ↔ _ |- context [intervals] =>
              lazymatch type of H with context [intervals] => table_with H x end
          | H : ∀ _, _ ↔ _ |- context [listeners] =>
              lazymatch type of H with context [listeners] => table_with H x end
          | H : ∀ _, _ ↔ _ |- context [observing] =>
              lazymatch type of H with context [observing] => table_with H x end
          end
      | |- _ => set_unfold; naive_solver
      end ].

#[local] Ltac books :=
  unfold owned in *; cbn in *;
  repeat match goal with H : _ ∧ _ |- _ => destruct H end;
  handles;
  split_and!;
  [ lia
  | repeat first [apply Forall_nil_2 | apply Forall_cons_2; [cbn; lia|]]
  | table .. ].

Lemma transitionEnd_respects : respects transitionEnd.
Proof.
  intros b0 Wf. split; [|intros sig st H; exact H].
  books.
Qed.

Lemma autoplay_respects installed : respects (autoplay installed).
Proof.
  intros b0 Wf. split; [|intros sig st H; exact H].
  destruct installed; [books | apply owned_initial].
Qed.

Lemma visibility_respects hasIO : respects (visibility hasIO).
Proof.
  intros b0 Wf. split; [|intros sig st H; exact H].
  destruct hasIO; [books | apply owned_initial].
Qed.


(** A handle named by the cleanup calls is not in the tables from
    before the mount. *)
Lemma fresh_not_before b0 rs b h :
  well_formed b0 -> owned b0 rs b -> CancelAnimationFrame h ∈ rs ->
  h ∉ frames b0.
Proof.
  intros (Wf & _) (_ & Hfresh & _) Hr Hh.
  rewrite Forall_forall in Hfresh.
  specialize (Hfresh _ Hr). specialize (Wf _ Hh). cbn in Hfresh. lia.
Qed.

Lemma reenable_respects isAnimating : respects (reenable isAnimating).
Proof.
  intros b0 Wf. split.
  - destruct isAnimating; [apply owned_initial | books].
  - intros sig [[h|] b] H; destruct sig; cbn in *; try exact H.
    assert (Hh : h ∉ frames b0).
    { eapply fresh_not_before; [exact Wf | exact H | set_solver]. }
    clear Wf. books.
Qed.

Lemma ticker_respects installed : respects (ticker installed).
Proof.
  intros b0 Wf. split.
  - destruct installed; [books | apply owned_initial].
  - intros sig [[[h o]|] b] H; destruct sig; cbn in *; try exact H.
    assert (Hh : h ∉ frames b0).
    { eapply fresh_not_before; [exact Wf | exact H | set_solver]. }
    clear Wf. books.
Qed.

Lemma parallax_onScroll_owned b0 request l b :
  owned b0 (parallax_cleanup (Some l)) b ->
  owned b0 (parallax_cleanup (Some (parallax_onScroll request (l, b)).1))
           (parallax_onScroll request (l, b)).2.
Proof.
  destruct l as [[h|] f g]; destruct request; cbn; auto.
  intros H. books.
Qed.

Lemma parallax_respects present request : respects (parallax present request).
Proof.
  intros b0 Wf. split.
  - cbn. unfold parallax_mount, parallax_install.
    destruct present; [|apply owned_initial].
    destruct request; cbn; books.
  - intros sig [[l|] b] H; cbn [react parallax parallax_react fst snd];
      [|exact H].
    destruct sig as [| |r].
    + destruct l as [[h|] f g]; cbn in *; [|exact H].
      assert (Hh : h ∉ frames b0).
      { eapply fresh_not_before; [exact Wf | exact H | set_solver]. }
      clear Wf. books.
    + exact H.
    + pose proof (parallax_onScroll_owned b0 r l b H) as H'.
      destruct (parallax_onScroll r (l, b)) as [l' b']. exact H'.
Qed.

Lemma observe_all obs (present : list string) : forall b,
  let b' := fold_left (fun b' i => observe obs i b') present b in
  next b' = next b /\ frames b' = frames b /\ intervals b' = intervals b
  /\ listeners b' = listeners b
  /\ forall p, p ∈ observing b' ↔ p ∈ observing b ∨ (p.1 = obs ∧ p.2 ∈ present).
Proof.
  induction present as [|i rest IH]; intros b; cbn.
  - split_and!; auto. intros p. set_solver.
  - destruct (IH (observe obs i b)) as (-> & -> & -> & -> & Ho).
    split_and!; auto. intros [o t]. rewrite Ho. cbn. set_solver.
Qed.

Lemma sectionObserver_respects present : respects (sectionObserver present).
Proof.
  intros b0 Wf. split; [|intros sig st H; exact H].
  cbn. unfold sectionObserver_mount. cbn.
  pose proof (observe_all (next b0) present (fresh b0).2) as H.
  cbn in H. destruct H as (Hn & Hf & Hi & Hl & Ho).
  unfold owned. cbn. rewrite Hn, Hf, Hi, Hl.
  split_and!; [lia | repeat constructor; cbn; lia | set_solver ..| ].
  intros [o t]. rewrite Ho. cbn. set_solver.
Qed.

Lemma subsystem_respects e : subsystem e -> respects e.
Proof.
  destruct 1; auto using parallax_respects, ticker_respects,
    visibility_respects, autoplay_respects, transitionEnd_respects,
    reenable_respects, sectionObserver_respects.
Qed.

(** While mounted, after any signals, the books are kept. *)
Lemma run_owned e sigs b0 :
  respects e -> well_formed b0 ->
  owned b0 (cleanup e (run e sigs b0).1) (run e sigs b0).2.
Proof.
  intros He Wf. destruct (He b0 Wf) as [Hm Hr]. unfold run.
  induction sigs using List.rev_ind; [exact Hm|].
  rewrite fold_left_app. cbn. now apply Hr.
Qed.
End EffectsRespect.

(** C9.  For every effect of the four components, mounted in any browser
    state and after any signals: the cleanup function can be called twice;
    the second call changes nothing, and after either call the browser's
    tables of pending frames, intervals, listeners and observed targets
    are exactly those from before the mount, so that nothing the effect
    subscribed to is outstanding. *)
Theorem teardown_is_idempotent
    (e : Effects.effect) (b0 : Browser.browser) (sigs : list Effects.signal) :
  Effects.subsystem e -> Browser.well_formed b0 ->
  Browser.tables (Effects.unmount e sigs 1 b0) = Browser.tables b0
  /\ Effects.unmount e sigs 2 b0 = Effects.unmount e sigs 1 b0
  /\ Browser.outstanding (Effects.unmount e sigs 2 b0)
     = Browser.outstanding b0.
Proof.
  intros He Wf.
  pose proof (run_owned e sigs b0 (subsystem_respects e He) Wf) as Hown.
  unfold Effects.unmount.
  destruct (Effects.run e sigs b0) as [l b] eqn:Hrun. cbn in Hown |- *.
  pose proof (owned_restores b0 _ b Wf Hown) as Htab.
  rewrite teardown_twice.
  split; [exact Htab|]. split; [reflexivity|].
  unfold Browser.tables in Htab. unfold Browser.outstanding.
  congruence.
Qed.

(** The parallax effect: mounted on an empty page, a scroll, the frame, a
    second scroll, then two cleanups: nothing is left. *)
Lemma teardown_is_idempotent_witness :
  let sigs := [Effects.Dispatch true; Effects.FrameFires;
               Effects.Dispatch true] in
  Browser.well_formed Browser.empty
  /\ Browser.outstanding
       (Effects.unmount (Effects.parallax true true) sigs 2 Browser.empty) = 0%nat.
Proof.
  intros sigs.
  assert (Wf : Browser.well_formed Browser.empty).
  { unfold Browser.well_formed, Browser.empty. cbn. set_solver. }
  split; [exact Wf|].
  exact (proj2 (proj2 (teardown_is_idempotent (Effects.parallax true true)
                         Browser.empty sigs (Effects.is_parallax true true) Wf))).
Defined.

(** ** GalleryCarousel: slides, dots and hovering *)

Section CarouselViewFacts.
Import GalleryCarousel CarouselView.
#[local] Open Scope Z_scope.
Context {A : Type}.
Implicit Types (images : list A) (s : state).

Lemma nth_error_last (l : list A) (d : A) :
  l <> [] -> nth_error l (length l - 1) = Some (List.last l d).
Proof.
  induction l as [|x l IH]; [congruence|]. intros _.
  destruct l as [|y l]; [reflexivity|].
  change (List.last (x :: y :: l) d) with (List.last (y :: l) d).
  rewrite <- IH by discriminate. cbn [length].
  replace (S (S (length l)) - 1)%nat with (S (S (length l) - 1)) by lia.
  reflexivity.
Qed.

Lemma slides_real images k :
  (k < length images)%nat ->
  nth_error (slides images) (S k) = nth_error images k.
Proof.
  destruct images as [|a l]; cbn [length]; [lia|]. intros Hk.
  cbn [slides nth_error]. rewrite nth_error_app1 by (cbn; lia). reflexivity.
Qed.

Lemma slides_leading_clone (a : A) (l : list A) :
  nth_error (slides (a :: l)) 0 = nth_error (slides (a :: l)) (length (a :: l)).
Proof.
  cbn [slides nth_error length].
  change (a :: l ++ [a]) with ((a :: l) ++ [a]).
  rewrite nth_error_app1 by (cbn; lia).
  pose proof (nth_error_last (a :: l) a ltac:(discriminate)) as H.
  cbn [length] in H. replace (S (length l) - 1)%nat with (length l) in H by lia.
  now rewrite H.
Qed.

Lemma slides_trailing_clone (a : A) (l : list A) :
  nth_error (slides (a :: l)) (S (length (a :: l)))
  = nth_error (slides (a :: l)) 1.
Proof.
  cbn [slides nth_error].
  change (a :: l ++ [a]) with ((a :: l) ++ [a]).
  rewrite nth_error_app2 by lia. rewrite Nat.sub_diag. reflexivity.
Qed.

Lemma realIndex_real_slide images s :
  1 <= index s <= n images -> realIndex images s = index s - 1.
Proof.
  intros H. unfold realIndex.
  destruct (Z.eqb_spec (n images) 0) as [E|_]; [lia|].
  rewrite Z.rem_mod_nonneg by lia.
  replace (index s - 1 + n images) with (index s - 1 + 1 * n images) by lia.
  rewrite Z.mod_add by lia. apply Z.mod_small. lia.
Qed.

Lemma realIndex_onEnd images s :
  realIndex images (onEnd images s) = realIndex images s.
Proof.
  unfold realIndex. destruct (Z.eqb_spec (n images) 0) as [E|Hn]; [reflexivity|].
  assert (Hlen : (1 <= length images)%nat) by (unfold n in Hn; lia).
  pose proof (slen_nonempty images Hlen) as Hs.
  assert (Hpos : 0 < n images) by (unfold n; lia).
  unfold onEnd. rewrite Hs.
  destruct (Z.eqb_spec (index s) (n images + 2 - 1)) as [E1|_].
  - cbn. rewrite E1.
    replace (1 - 1 + n images) with (0 + 1 * n images) by lia.
    replace (n images + 2 - 1 - 1 + n images) with (0 + 2 * n images) by lia.
    rewrite !Z.rem_mod_nonneg by lia. now rewrite !Z.mod_add by lia.
  - destruct (Z.eqb_spec (index s) 0) as [E0|_]; [|reflexivity].
    cbn. rewrite E0.
    replace (n images + 2 - 2 - 1 + n images) with (n images - 1 + 1 * n images)
      by lia.
    replace (0 - 1 + n images) with (n images - 1) by lia.
    rewrite !Z.rem_mod_nonneg by lia. now rewrite Z.mod_add by lia.
Qed.

Lemma interval_ticks_while_paused images k : forall s,
  paused s = true -> run images s (repeat IntervalTick k) = s.
Proof.
  induction k as [|k IH]; intros s Hp; [reflexivity|].
  change (run images s (repeat IntervalTick (S k)))
    with (run images (onInterval images s) (repeat IntervalTick k)).
  unfold onInterval, autoplay_installed. rewrite Hp. cbn. now apply IH.
Qed.
End CarouselViewFacts.

(** X1.  With at least one image, the slide under the index is the same
    image before and after the snap at a clone slot: the trailing clone
    and slide 1 both hold the first image, the leading clone and slide [n]
    both hold the last image. *)
Theorem carousel_snap_keeps_slide {A : Type} (images : list A)
    (s : GalleryCarousel.state) :
  (1 <= length images)%nat ->
  GalleryCarousel.index s = (GalleryCarousel.n images + 1)%Z
  \/ GalleryCarousel.index s = 0%Z ->
  CarouselView.slide_at images (GalleryCarousel.onEnd images s)
  = CarouselView.slide_at images s
  /\ CarouselView.slide_at images s <> None.
Proof.
  intros Hn Hi. destruct images as [|a l]; [cbn in Hn; lia|].
  pose proof (slen_nonempty (a :: l) Hn) as Hs.
  assert (HN : GalleryCarousel.n (a :: l) = Z.of_nat (length (a :: l)))
    by reflexivity.
  unfold CarouselView.slide_at, GalleryCarousel.onEnd. rewrite Hs.
  destruct Hi as [Hi|Hi]; rewrite Hi.
  - replace (GalleryCarousel.n (a :: l) + 2 - 1)%Z
      with (GalleryCarousel.n (a :: l) + 1)%Z by lia.
    rewrite Z.eqb_refl. cbn [GalleryCarousel.index GalleryCarousel.setIndex
                             GalleryCarousel.setAnimating].
    destruct (Z.ltb_spec (GalleryCarousel.n (a :: l) + 1) 0) as [Hlt|_]; [lia|].
    change (1 <? 0)%Z with false. cbn [Z.to_nat Pos.to_nat Pos.iter_op Nat.add].
    replace (Z.to_nat (GalleryCarousel.n (a :: l) + 1))
      with (S (length (a :: l))) by (rewrite HN; lia).
    rewrite slides_trailing_clone. split; [reflexivity|]. discriminate.
  - destruct (Z.eqb_spec 0 (GalleryCarousel.n (a :: l) + 2 - 1)) as [E|_]; [lia|].
    cbn [Z.eqb GalleryCarousel.index GalleryCarousel.setIndex
         GalleryCarousel.setAnimating].
    destruct (Z.ltb_spec (GalleryCarousel.n (a :: l) + 2 - 2) 0) as [Hlt|_]; [lia|].
    change (0 <? 0)%Z with false. change (Z.to_nat 0) with 0%nat.
    replace (Z.to_nat (GalleryCarousel.n (a :: l) + 2 - 2))
      with (length (a :: l)) by (rewrite HN; lia).
    rewrite <- slides_leading_clone. split; [reflexivity|]. discriminate.
Qed.

(** Three images, index on the trailing clone. *)
Lemma carousel_snap_keeps_slide_witness :
  CarouselView.slide_at ["a"; "b"; "c"]%string
    (GalleryCarousel.onEnd ["a"; "b"; "c"]%string
       (GalleryCarousel.mk_state 4 true false))
  = CarouselView.slide_at ["a"; "b"; "c"]%string
      (GalleryCarousel.mk_state 4 true false).
Proof.
  apply (carousel_snap_keeps_slide ["a"; "b"; "c"]%string
           (GalleryCarousel.mk_state 4 true false)).
  - cbn. lia.
  - left. reflexivity.
Defined.

(** X2.  The dot indicator never moves at a transition end, whatever the
    index and the number of images. *)
Theorem carousel_snap_keeps_dot {A : Type} (images : list A)
    (s : GalleryCarousel.state) :
  GalleryCarousel.realIndex images
    (GalleryCarousel.step images s GalleryCarousel.TransitionEnd)
  = GalleryCarousel.realIndex images s.
Proof. apply realIndex_onEnd. Qed.

(** X3.  From a real slide, a press of the next button followed by the end
    of its transition moves the dot indicator forward by one modulo the
    number of images, a press of the previous button moves it back by one
    modulo the number of images, and in both cases the index is on a real
    slide again. *)
Theorem carousel_buttons_cycle {A : Type} (images : list A)
    (s : GalleryCarousel.state) :
  (1 <= GalleryCarousel.index s <= GalleryCarousel.n images)%Z ->
  let N := GalleryCarousel.n images in
  let next := GalleryCarousel.run images s
                [GalleryCarousel.Go 1; GalleryCarousel.TransitionEnd] in
  let prev := GalleryCarousel.run images s
                [GalleryCarousel.Go (-1); GalleryCarousel.TransitionEnd] in
  GalleryCarousel.realIndex images next
    = ((GalleryCarousel.realIndex images s + 1) mod N)%Z
  /\ GalleryCarousel.realIndex images prev
    = ((GalleryCarousel.realIndex images s - 1) mod N)%Z
  /\ (1 <= GalleryCarousel.index next <= N)%Z
  /\ (1 <= GalleryCarousel.index prev <= N)%Z.
Proof.
  intros Hi N next prev.
  assert (Hlen : (1 <= length images)%nat)
    by (unfold GalleryCarousel.n in Hi; lia).
  pose proof (slen_nonempty images Hlen) as Hs. fold N in Hs, Hi.
  rewrite (realIndex_real_slide images s Hi). fold N.
  assert (Hnext : GalleryCarousel.index next
                  = if (GalleryCarousel.index s =? N)%Z then 1%Z
                    else (GalleryCarousel.index s + 1)%Z).
  { unfold next. cbn [GalleryCarousel.run fold_left GalleryCarousel.step].
    unfold GalleryCarousel.onEnd, GalleryCarousel.go. cbn. rewrite Hs.
    destruct (Z.eqb_spec (GalleryCarousel.index s) N) as [E|E].
    - rewrite E. replace (N + 2 - 1)%Z with (N + 1)%Z by lia.
      now rewrite Z.eqb_refl.
    - destruct (Z.eqb_spec (GalleryCarousel.index s + 1) (N + 2 - 1)); [lia|].
      destruct (Z.eqb_spec (GalleryCarousel.index s + 1) 0); [lia|].
      reflexivity. }
  assert (Hprev : GalleryCarousel.index prev
                  = if (GalleryCarousel.index s =? 1)%Z then N
                    else (GalleryCarousel.index s - 1)%Z).
  { unfold prev. cbn [GalleryCarousel.run fold_left GalleryCarousel.step].
    unfold GalleryCarousel.onEnd, GalleryCarousel.go. cbn. rewrite Hs.
    destruct (Z.eqb_spec (GalleryCarousel.index s) 1) as [E|E].
    - rewrite E. change (1 + -1)%Z with 0%Z.
      destruct (Z.eqb_spec 0 (N + 2 - 1)); [lia|].
      cbn [Z.eqb GalleryCarousel.index GalleryCarousel.setIndex]. lia.
    - destruct (Z.eqb_spec (GalleryCarousel.index s + -1) (N + 2 - 1)); [lia|].
      destruct (Z.eqb_spec (GalleryCarousel.index s + -1) 0); [lia|].
      cbn. lia. }
  assert (Bn : (1 <= GalleryCarousel.index next <= N)%Z).
  { rewrite Hnext. destruct (Z.eqb_spec (GalleryCarousel.index s) N); lia. }
  assert (Bp : (1 <= GalleryCarousel.index prev <= N)%Z).
  { rewrite Hprev. destruct (Z.eqb_spec (GalleryCarousel.index s) 1); lia. }
  rewrite (realIndex_real_slide images next Bn).
  rewrite (realIndex_real_slide images prev Bp).
  rewrite Hnext, Hprev.
  repeat split; try lia.
  - destruct (Z.eqb_spec (GalleryCarousel.index s) N) as [E|E].
    + rewrite E. replace (N - 1 + 1)%Z with N by lia.
      rewrite Z.mod_same by lia. lia.
    + rewrite Z.mod_small by lia. lia.
  - destruct (Z.eqb_spec (GalleryCarousel.index s) 1) as [E|E].
    + rewrite E. replace (1 - 1 - 1)%Z with (N - 1 + (-1) * N)%Z by lia.
      rewrite Z.mod_add by lia. rewrite Z.mod_small by lia. lia.
    + rewrite Z.mod_small by lia. lia.
Qed.

(** Three images, from the last real slide. *)
Lemma carousel_buttons_cycle_witness :
  GalleryCarousel.realIndex ["a"; "b"; "c"]%string
    (GalleryCarousel.run ["a"; "b"; "c"]%string
       (GalleryCarousel.mk_state 3 true false)
       [GalleryCarousel.Go 1; GalleryCarousel.TransitionEnd])
  = ((GalleryCarousel.realIndex ["a"; "b"; "c"]%string
        (GalleryCarousel.mk_state 3 true false) + 1)
     mod GalleryCarousel.n ["a"; "b"; "c"]%string)%Z.
Proof.
  apply (carousel_buttons_cycle ["a"; "b"; "c"]%string
           (GalleryCarousel.mk_state 3 true false)).
  unfold GalleryCarousel.n. cbn. lia.
Defined.

(** X4.  A click on dot [i] of an [n]-image carousel puts the index on
    real slide [i + 1] with animation on, and the dot indicator on [i],
    from any state. *)
Theorem carousel_dot_selects {A : Type} (images : list A)
    (s : GalleryCarousel.state) (i : nat) :
  (i < length images)%nat ->
  let s' := GalleryCarousel.step images s (GalleryCarousel.Dot i) in
  GalleryCarousel.index s' = (Z.of_nat i + 1)%Z
  /\ GalleryCarousel.isAnimating s' = true
  /\ GalleryCarousel.realIndex images s' = Z.of_nat i
  /\ CarouselView.dot_active images s' i = true
  /\ CarouselView.slide_at images s' = nth_error images i.
Proof.
  intros Hi s'.
  assert (E : s' = GalleryCarousel.mk_state (Z.of_nat i + 1) true
                     (GalleryCarousel.paused s)).
  { unfold s'. cbn [GalleryCarousel.step]. unfold GalleryCarousel.onDot.
    destruct (Nat.ltb_spec i (length images)); [reflexivity | lia]. }
  assert (Hr : GalleryCarousel.realIndex images s' = Z.of_nat i).
  { rewrite realIndex_real_slide; rewrite E; cbn;
      unfold GalleryCarousel.n; lia. }
  split; [now rewrite E|]. split; [now rewrite E|]. split; [exact Hr|].
  split.
  - unfold CarouselView.dot_active. rewrite Hr. apply Z.eqb_refl.
  - unfold CarouselView.slide_at. rewrite E. cbn [GalleryCarousel.index].
    destruct (Z.ltb_spec (Z.of_nat i + 1) 0); [lia|].
    replace (Z.to_nat (Z.of_nat i + 1)) with (S i) by lia.
    now apply slides_real.
Qed.

(** The second dot of three. *)
Lemma carousel_dot_selects_witness :
  GalleryCarousel.realIndex ["a"; "b"; "c"]%string
    (GalleryCarousel.step ["a"; "b"; "c"]%string GalleryCarousel.init
       (GalleryCarousel.Dot 1)) = 1%Z.
Proof.
  apply (carousel_dot_selects ["a"; "b"; "c"]%string GalleryCarousel.init 1).
  cbn. lia.
Defined.

(** X5.  While the pointer is over the carousel no number of interval
    ticks changes anything: after mouse enter, [k] ticks and mouse leave
    the state is the one from before with [paused] false. *)
Theorem carousel_hover_freezes_autoplay {A : Type} (images : list A)
    (s : GalleryCarousel.state) (k : nat) :
  GalleryCarousel.run images s
    (GalleryCarousel.MouseEnter
       :: repeat GalleryCarousel.IntervalTick k ++ [GalleryCarousel.MouseLeave])
  = GalleryCarousel.setPaused false s.
Proof.
  unfold GalleryCarousel.run. cbn [fold_left]. rewrite fold_left_app.
  fold (GalleryCarousel.run images
          (GalleryCarousel.step images s GalleryCarousel.MouseEnter)
          (repeat GalleryCarousel.IntervalTick k)).
  rewrite interval_ticks_while_paused by reflexivity.
  reflexivity.
Qed.

(** X6.  With at least one image every slide is exactly one viewport
    wide.  For an index that is not negative the track's transform is the
    text [translateX(-<index * (100 / slides.length)>%)], and after this
    translation slide [k] starts [k - index] viewport widths from the left
    edge, so the slide under the index fills the viewport.  For a negative
    index, and without slides, the text is not a transform and no
    translation is applied. *)
Theorem carousel_slide_fills_viewport {A : Type} (images : list A)
    (s : GalleryCarousel.state) (k : Z) :
  (1 <= length images)%nat ->
  (0 <= GalleryCarousel.index s)%Z ->
  (CarouselView.slideWidth images / 100 * (CarouselView.trackWidth images / 100)
   == 1)%Q
  /\ CarouselView.transform images s
     = Some [Text "translateX(-";
             Number (inject_Z (GalleryCarousel.index s)
                     * (100 / inject_Z (Z.of_nat (length images) + 2)))%Q;
             Text "%)"]
  /\ (exists x, CarouselView.slide_left images s k = Some x
                /\ (x == inject_Z k - inject_Z (GalleryCarousel.index s))%Q)
  /\ (exists x, CarouselView.slide_left images s (GalleryCarousel.index s)
                = Some x /\ (x == 0)%Q)
  /\ (forall s', (GalleryCarousel.index s' < 0)%Z ->
        CarouselView.translateX images s' = None
        /\ CarouselView.slide_left images s' k = None)
  /\ (forall s', CarouselView.transform (@nil A) s' = None
                 /\ CarouselView.translateX (@nil A) s' = None).
Proof.
  intros Hn Hi. pose proof (slen_nonempty images Hn) as Hs.
  assert (Hlen : GalleryCarousel.slen images = (Z.of_nat (length images) + 2)%Z).
  { rewrite Hs. reflexivity. }
  assert (Hz : (GalleryCarousel.slen images =? 0)%Z = false).
  { apply Z.eqb_neq. lia. }
  assert (Hpos : (0 < inject_Z (GalleryCarousel.slen images))%Q).
  { change 0%Q with (inject_Z 0). rewrite <- Zlt_Qlt. lia. }
  assert (Hquot : (0 < 100 / inject_Z (GalleryCarousel.slen images))%Q).
  { apply Qlt_shift_div_l; [exact Hpos | lra]. }
  assert (Hshift : forall st,
            CarouselView.shift images st
            = Some (inject_Z (GalleryCarousel.index st)
                    * (100 / inject_Z (GalleryCarousel.slen images)))%Q).
  { intros st. unfold CarouselView.shift. now rewrite Hz. }
  assert (Hx : CarouselView.translateX images s
               = Some (inject_Z (GalleryCarousel.index s)
                       * (100 / inject_Z (GalleryCarousel.slen images)))%Q).
  { unfold CarouselView.translateX. rewrite Hshift.
    destruct (Qle_bool 0 _) eqn:E; [reflexivity|].
    assert (H0 : (0 <= inject_Z (GalleryCarousel.index s))%Q).
    { change 0%Q with (inject_Z 0). rewrite <- Zle_Qle. exact Hi. }
    assert (H1 : (0 <= inject_Z (GalleryCarousel.index s)
                       * (100 / inject_Z (GalleryCarousel.slen images)))%Q)
      by (apply Qmult_le_0_compat; lra).
    apply Qle_bool_iff in H1. congruence. }
  assert (HL : ~ (inject_Z (GalleryCarousel.slen images) == 0)%Q) by lra.
  split.
  { unfold CarouselView.slideWidth, CarouselView.trackWidth. field. exact HL. }
  split.
  { unfold CarouselView.transform. rewrite Hshift, Hlen. reflexivity. }
  split.
  { unfold CarouselView.slide_left. rewrite Hx. cbn [option_map].
    eexists. split; [reflexivity|].
    unfold CarouselView.slideWidth, CarouselView.trackWidth. field. exact HL. }
  split.
  { unfold CarouselView.slide_left. rewrite Hx. cbn [option_map].
    eexists. split; [reflexivity|].
    unfold CarouselView.slideWidth, CarouselView.trackWidth. field. exact HL. }
  split.
  { intros s' Hneg.
    assert (Hx' : CarouselView.translateX images s' = None).
    { unfold CarouselView.translateX. rewrite Hshift.
      destruct (Qle_bool 0 _) eqn:E; [|reflexivity].
      apply Qle_bool_iff in E.
      assert (H0 : (inject_Z (GalleryCarousel.index s') < 0)%Q).
      { change 0%Q with (inject_Z 0). rewrite <- Zlt_Qlt. exact Hneg. }
      assert (H1 : (0 < (- inject_Z (GalleryCarousel.index s'))
                        * (100 / inject_Z (GalleryCarousel.slen images)))%Q)
        by (apply Qmult_lt_0_compat; lra).
      lra. }
    split; [exact Hx'|]. unfold CarouselView.slide_left. now rewrite Hx'. }
  intros s'. split; reflexivity.
Qed.

(** Three images: at index 2 the text is [translateX(-40%)] and slide 3
    starts one viewport to the right. *)
Lemma carousel_slide_fills_viewport_witness :
  let images := ["a"; "b"; "c"]%string in
  let s := GalleryCarousel.mk_state 2 true false in
  (1 <= length images)%nat /\ (0 <= GalleryCarousel.index s)%Z
  /\ option_map render (CarouselView.transform images s)
     = Some (Some "translateX(-40%)"%string)
  /\ exists x, CarouselView.slide_left images s 3 = Some x /\ (x == 1)%Q.
Proof.
  intros images s.
  assert (H : (1 <= length images)%nat) by (cbn; lia).
  assert (H0 : (0 <= GalleryCarousel.index s)%Z) by (cbn; lia).
  destruct (carousel_slide_fills_viewport images s 3 H H0)
    as (_ & Et & (x & Ex & Hx) & _).
  split; [exact H|]. split; [exact H0|]. split.
  - rewrite Et. reflexivity.
  - exists x. split; [exact Ex|]. rewrite Hx. reflexivity.
Defined.

(** ** AutoScrollGallery: track, tick bound, pausing *)

Section StripMoreFacts.
Import AutoScrollGallery.
#[local] Open Scope Q_scope.
Variable cfg : config.
Implicit Types (s : state) (e : event).

Lemma frames_while_paused tss : forall s,
  isPaused s = true ->
  scrollLeft (run cfg s (List.map Frame tss)) = scrollLeft s
  /\ isPaused (run cfg s (List.map Frame tss)) = true.
Proof.
  induction tss as [|t tss IH]; intros s Hp; [auto|].
  cbn [List.map run fold_left handle].
  fold (run cfg (step cfg t s) (List.map Frame tss)).
  assert (H : scrollLeft (step cfg t s) = scrollLeft s
              /\ isPaused (step cfg t s) = true).
  { unfold step. destruct (ticker s); [|auto]. cbn. now rewrite Hp. }
  destruct H as [H1 H2]. destruct (IH _ H2) as [H3 H4].
  split; congruence.
Qed.

(** A remainder that is already in range is the number itself. *)
Lemma js_rem_small (a b : Q) : 0 <= a -> a < b -> js_rem a b == a.
Proof.
  intros Ha Hb. unfold js_rem.
  assert (Hpos : 0 < b) by lra.
  assert (Hq : 0 <= a / b) by (apply Qle_shift_div_l; [exact Hpos | lra]).
  assert (Hq1 : a / b < 1) by (apply Qlt_shift_div_r; [exact Hpos | lra]).
  rewrite (Qtrunc_nonneg _ Hq).
  assert (Hk : Qfloor (a / b) = 0%Z).
  { pose proof (Qfloor_le (a / b)) as Hlo.
    pose proof (Qlt_floor (a / b)) as Hhi.
    assert (H1 : (Qfloor (a / b) < 1)%Z).
    { rewrite Zlt_Qlt. change (inject_Z 1) with 1. lra. }
    assert (H2 : (0 < Qfloor (a / b) + 1)%Z).
    { rewrite Zlt_Qlt. change (inject_Z 0) with 0. lra. }
    lia. }
  rewrite Hk. change (inject_Z 0) with 0. ring.
Qed.
End StripMoreFacts.

(** X7.  With a loop the track holds every normalised image twice: card
    [i] and card [i + n] are the same image, the first copy is loaded
    eagerly and the second lazily. *)
Theorem strip_track_is_doubled (images : AutoScrollGallery.value) (i : nat) :
  AutoScrollGallery.hasLoop images = true ->
  (i < length (AutoScrollGallery.safeImages images))%nat ->
  let N := length (AutoScrollGallery.safeImages images) in
  length (AutoScrollGallery.track images) = (2 * N)%nat
  /\ nth_error (AutoScrollGallery.track images) i
     = nth_error (AutoScrollGallery.safeImages images) i
  /\ nth_error (AutoScrollGallery.track images) (i + N)
     = nth_error (AutoScrollGallery.track images) i
  /\ StripView.loading images i = "eager"%string
  /\ StripView.loading images (i + N) = "lazy"%string.
Proof.
  intros Hl Hi N. unfold AutoScrollGallery.track. rewrite Hl.
  fold N in Hi.
  assert (E1 : nth_error (AutoScrollGallery.safeImages images
                          ++ AutoScrollGallery.safeImages images) i
               = nth_error (AutoScrollGallery.safeImages images) i)
    by (apply nth_error_app1; exact Hi).
  split; [rewrite length_app; fold N; lia|].
  split; [exact E1|]. split.
  - rewrite E1, nth_error_app2 by (fold N; lia). fold N.
    replace (i + N - N)%nat with i by lia. reflexivity.
  - unfold StripView.loading. fold N.
    destruct (Nat.ltb_spec i N); [|lia].
    destruct (Nat.ltb_spec (i + N) N); [lia|]. split; reflexivity.
Qed.

(** The page's gallery: card 2 and card 8 are the same image. *)
Lemma strip_track_is_doubled_witness :
  nth_error (AutoScrollGallery.track AutoScrollGallery.app_images) (2 + 6)
  = nth_error (AutoScrollGallery.track AutoScrollGallery.app_images) 2.
Proof.
  apply (strip_track_is_doubled AutoScrollGallery.app_images 2).
  - reflexivity.
  - cbn. lia.
Defined.

(** X8.  For a non-negative speed one tick never advances by more than
    [speed * 50 / 1000], however late the frame comes; up to 50 ms the
    advance is [speed * elapsed / 1000]. *)
Theorem strip_tick_is_clamped (cfg : AutoScrollGallery.config) (prev ts : Q) :
  (0 <= AutoScrollGallery.speed cfg)%Q ->
  (AutoScrollGallery.advance cfg prev ts
     <= AutoScrollGallery.speed cfg * 50 / 1000)%Q
  /\ ((ts - prev <= 50)%Q ->
      (AutoScrollGallery.advance cfg prev ts
         == AutoScrollGallery.speed cfg * (ts - prev) / 1000)%Q)
  /\ ((50 <= ts - prev)%Q ->
      (AutoScrollGallery.advance cfg prev ts
         == AutoScrollGallery.speed cfg * 50 / 1000)%Q).
Proof.
  intros Hs. unfold AutoScrollGallery.advance.
  set (v := AutoScrollGallery.speed cfg) in *.
  assert (E50 : (v * 50 / 1000 == v * (1 # 20))%Q) by field.
  assert (Ev : (v / 1000 == v * (1 # 1000))%Q) by field.
  assert (Hmin : forall d, (v / 1000 * d == v * d * (1 # 1000))%Q)
    by (intros; field).
  split; [|split].
  - rewrite Hmin, E50.
    pose proof (Q.le_min_r (ts - prev) 50) as Hle.
    assert ((Qmin (ts - prev) 50 * v <= 50 * v)%Q)
      by (apply Qmult_le_compat_r; [exact Hle | exact Hs]).
    lra.
  - intros Hd. rewrite (Q.min_l _ _ Hd). field.
  - intros Hd. rewrite (Q.min_r _ _ Hd). field.
Qed.

(** Default speed, a frame three seconds late. *)
Lemma strip_tick_is_clamped_witness :
  (AutoScrollGallery.advance (AutoScrollGallery.app_gallery 60 false) 0 3000
   <= 60 * 50 / 1000)%Q.
Proof.
  apply (strip_tick_is_clamped (AutoScrollGallery.app_gallery 60 false) 0 3000).
  vm_compute. discriminate.
Defined.

(** X9.  A strip paused by hovering resumes on mouse leave, and its first
    tick afterwards measures the elapsed time from the moment of the mouse
    leave: the time spent paused is not scrolled through. *)
Theorem strip_resume_restarts_clock
    (cfg : AutoScrollGallery.config) (s : AutoScrollGallery.state)
    (now ts : Q) :
  AutoScrollGallery.ticker_installed cfg = true ->
  AutoScrollGallery.pauseOnHover cfg = true ->
  AutoScrollGallery.isPaused s = true ->
  let s' := AutoScrollGallery.run cfg s
              [AutoScrollGallery.MouseLeave now; AutoScrollGallery.Frame ts] in
  let moved := (AutoScrollGallery.scrollLeft s
                + AutoScrollGallery.advance cfg now ts)%Q in
  let half := (AutoScrollGallery.scrollWidth s / 2)%Q in
  AutoScrollGallery.isPaused s' = false
  /\ AutoScrollGallery.ticker s' = Some ts
  /\ AutoScrollGallery.scrollLeft s'
     = if Qle_bool half moved then (moved - half)%Q else moved.
Proof.
  intros Hi Hh Hp s' moved half. unfold s'.
  cbn [AutoScrollGallery.run fold_left AutoScrollGallery.handle].
  rewrite Hh. unfold AutoScrollGallery.setIsPaused. rewrite Hp. cbn [Bool.eqb].
  rewrite Hi. unfold AutoScrollGallery.step. cbn. auto.
Qed.

(** The page's gallery, paused at offset 10, resumed after ten seconds. *)
Lemma strip_resume_restarts_clock_witness :
  AutoScrollGallery.scrollLeft
    (AutoScrollGallery.run (AutoScrollGallery.app_gallery 70 false)
       (AutoScrollGallery.mk_state 10 3024 true (Some 100))
       [AutoScrollGallery.MouseLeave 10000; AutoScrollGallery.Frame 10016])
  = (if Qle_bool (3024 / 2)
          (10 + AutoScrollGallery.advance
                  (AutoScrollGallery.app_gallery 70 false) 10000 10016)
     then 10 + AutoScrollGallery.advance
                 (AutoScrollGallery.app_gallery 70 false) 10000 10016
          - 3024 / 2
     else 10 + AutoScrollGallery.advance
                 (AutoScrollGallery.app_gallery 70 false) 10000 10016)%Q.
Proof.
  apply (strip_resume_restarts_clock (AutoScrollGallery.app_gallery 70 false)
           (AutoScrollGallery.mk_state 10 3024 true (Some 100)) 10000 10016);
    reflexivity.
Defined.

(** X10.  With hover pausing on, no number of frames after a mouse enter
    moves the offset. *)
Theorem strip_hover_freezes_offset
    (cfg : AutoScrollGallery.config) (s : AutoScrollGallery.state)
    (now : Q) (tss : list Q) :
  AutoScrollGallery.pauseOnHover cfg = true ->
  AutoScrollGallery.scrollLeft
    (AutoScrollGallery.run cfg s
       (AutoScrollGallery.MouseEnter now
          :: List.map AutoScrollGallery.Frame tss))
  = AutoScrollGallery.scrollLeft s.
Proof.
  intros Hh. cbn [AutoScrollGallery.run fold_left AutoScrollGallery.handle].
  rewrite Hh.
  fold (AutoScrollGallery.run cfg
          (AutoScrollGallery.setIsPaused cfg true now s)
          (List.map AutoScrollGallery.Frame tss)).
  destruct (frames_while_paused cfg tss
              (AutoScrollGallery.setIsPaused cfg true now s)
              (setIsPaused_true cfg now s)) as [-> _].
  apply setIsPaused_element.
Qed.

(** The page's gallery after two frames, hovered for three more. *)
Lemma strip_hover_freezes_offset_witness :
  let cfg := AutoScrollGallery.app_gallery 70 false in
  let s := AutoScrollGallery.run cfg (AutoScrollGallery.mount cfg 0 3024)
             [AutoScrollGallery.Frame 16; AutoScrollGallery.Frame 32] in
  AutoScrollGallery.scrollLeft
    (AutoScrollGallery.run cfg s
       (AutoScrollGallery.MouseEnter 40
          :: List.map AutoScrollGallery.Frame [48; 64; 80]%Q))
  = AutoScrollGallery.scrollLeft s.
Proof.
  intros cfg s.
  exact (strip_hover_freezes_offset cfg s 40 [48; 64; 80]%Q eq_refl).
Defined.

(** X11.  The pause flag is shared: with hover pausing on, a mouse leave
    clears a pause that the visibility observer set, whether or not the
    strip is visible again. *)
Theorem strip_mouse_leave_clears_observer_pause
    (cfg : AutoScrollGallery.config) (s : AutoScrollGallery.state)
    (t1 t2 : Q) :
  AutoScrollGallery.pauseOnHover cfg = true ->
  AutoScrollGallery.hasIntersectionObserver cfg = true ->
  AutoScrollGallery.isPaused
    (AutoScrollGallery.handle cfg s (AutoScrollGallery.Intersection [false] t1))
  = true
  /\ AutoScrollGallery.isPaused
       (AutoScrollGallery.run cfg s
          [AutoScrollGallery.Intersection [false] t1;
           AutoScrollGallery.MouseLeave t2])
     = false.
Proof.
  intros Hh Ho.
  cbn [AutoScrollGallery.run fold_left AutoScrollGallery.handle].
  unfold AutoScrollGallery.onIntersection. rewrite Hh, Ho. cbn [fold_left].
  split; [apply setIsPaused_true|].
  unfold AutoScrollGallery.setIsPaused at 1.
  rewrite setIsPaused_true. reflexivity.
Qed.

(** The page's gallery. *)
Lemma strip_mouse_leave_clears_observer_pause_witness :
  let cfg := AutoScrollGallery.app_gallery 70 false in
  AutoScrollGallery.isPaused
    (AutoScrollGallery.run cfg (AutoScrollGallery.mount cfg 0 3024)
       [AutoScrollGallery.Intersection [false] 10;
        AutoScrollGallery.MouseLeave 20])
  = false.
Proof.
  intros cfg.
  exact (proj2 (strip_mouse_leave_clears_observer_pause cfg
                  (AutoScrollGallery.mount cfg 0 3024) 10 20 eq_refl eq_refl)).
Defined.

(** X12.  With the ticker installed, a resize callback that finds the
    offset already inside [[0, width / 2)] leaves it where it is, and for
    any non-negative offset a second callback with the same width changes
    nothing more. *)
Theorem strip_resize_is_stable
    (cfg : AutoScrollGallery.config) (s : AutoScrollGallery.state) (w : Q) :
  AutoScrollGallery.ticker s <> None ->
  (0 < w)%Q -> (0 <= AutoScrollGallery.scrollLeft s)%Q ->
  ((AutoScrollGallery.scrollLeft s < w / 2)%Q ->
     (AutoScrollGallery.scrollLeft (AutoScrollGallery.onResize w s)
      == AutoScrollGallery.scrollLeft s)%Q)
  /\ (AutoScrollGallery.scrollLeft
        (AutoScrollGallery.onResize w (AutoScrollGallery.onResize w s))
      == AutoScrollGallery.scrollLeft (AutoScrollGallery.onResize w s))%Q.
Proof.
  intros Ht Hw Hs. pose proof (half_positive _ Hw) as Hh.
  destruct (AutoScrollGallery.ticker s) as [prev|] eqn:Hp; [|congruence].
  assert (E : Qle_bool (w / 2) 0 = false).
  { destruct (Qle_bool (w / 2) 0) eqn:E; [|reflexivity].
    apply Qle_bool_iff in E. lra. }
  unfold AutoScrollGallery.onResize. cbn. rewrite Hp, E. cbn.
  split.
  - intros Hlt. now apply js_rem_small.
  - destruct (js_rem_range (AutoScrollGallery.scrollLeft s) (w / 2) Hs Hh).
    now apply js_rem_small.
Qed.

(** Offset 1000 on a track of width 1600, resized twice. *)
Lemma strip_resize_is_stable_witness :
  (AutoScrollGallery.scrollLeft
     (AutoScrollGallery.onResize 1600
        (AutoScrollGallery.onResize 1600
           (AutoScrollGallery.mk_state 1000 3024 false (Some 0))))
   == AutoScrollGallery.scrollLeft
        (AutoScrollGallery.onResize 1600
           (AutoScrollGallery.mk_state 1000 3024 false (Some 0))))%Q.
Proof.
  apply (strip_resize_is_stable (AutoScrollGallery.app_gallery 70 false)
           (AutoScrollGallery.mk_state 1000 3024 false (Some 0)) 1600).
  - discriminate.
  - reflexivity.
  - vm_compute. discriminate.
Defined.

(** ** useParallaxRelative: throttling and reduced motion *)

Section ParallaxMoreFacts.
Import Parallax.
#[local] Open Scope Q_scope.
Variable cfg : config.
Implicit Types (s : state).

Lemma reduced_handle_idle s e :
  reduced cfg = true -> raf s = None -> transform s = None ->
  raf (handle cfg s e) = None /\ transform (handle cfg s e) = None.
Proof.
  intros Hr Hn Ht. destruct e; cbn [handle].
  - unfold onScroll. rewrite Hr. cbn. auto.
  - unfold onResize, onScroll. rewrite Hr. cbn. auto.
  - unfold onFrame. rewrite Hn. auto.
Qed.

Lemma reduced_run_idle es : forall s,
  reduced cfg = true -> raf s = None -> transform s = None ->
  raf (run cfg s es) = None /\ transform (run cfg s es) = None.
Proof.
  induction es as [|e es IH]; intros s Hr Hn Ht; [auto|].
  cbn [run fold_left]. fold (run cfg (handle cfg s e) es).
  destruct (reduced_handle_idle s e Hr Hn Ht). now apply IH.
Qed.


End ParallaxMoreFacts.

(** X14.  With the reduced-motion preference set the hook never requests
    a frame and never writes the transform, whatever scroll, resize and
    frame events arrive after the mount. *)
Theorem parallax_reduced_never_writes
    (cfg : Parallax.config) (y top : Q) (es : list Parallax.event) :
  Parallax.reduced cfg = true ->
  Parallax.raf (Parallax.run cfg (Parallax.mount cfg y top) es) = None
  /\ Parallax.transform (Parallax.run cfg (Parallax.mount cfg y top) es) = None.
Proof.
  intros Hr. apply reduced_run_idle; [exact Hr | |];
    unfold Parallax.mount, Parallax.onResize, Parallax.onScroll;
    rewrite Hr; reflexivity.
Qed.

(** The hero background under reduced motion. *)
Lemma parallax_reduced_never_writes_witness :
  Parallax.transform
    (Parallax.run (Parallax.mk_config 0.25 true)
       (Parallax.mount (Parallax.mk_config 0.25 true) 0 100)
       [Parallax.Frame; Parallax.Scroll 500; Parallax.Resize 80; Parallax.Frame])
  = None.
Proof.
  apply (parallax_reduced_never_writes (Parallax.mk_config 0.25 true) 0 100).
  reflexivity.
Defined.



(** X16.  A resize forces one recomputation even when the scroll position
    has not changed: with no frame pending and the page at a non-negative
    scroll position, the frame after a resize writes the offset measured
    from the container's new top. *)
Theorem parallax_resize_forces_update
    (cfg : Parallax.config) (s : Parallax.state) (top : Q) :
  Parallax.reduced cfg = false ->
  Parallax.raf s = None ->
  (0 <= Parallax.scrollY s)%Q ->
  let s1 := Parallax.handle cfg s (Parallax.Resize top) in
  (Parallax.containerTop s1 == top)%Q
  /\ Parallax.raf s1 = Some (Parallax.scrollY s)
  /\ Parallax.transform (Parallax.run cfg s [Parallax.Resize top; Parallax.Frame])
     = Some (Parallax.transform_of
               ((Parallax.scrollY s - Parallax.containerTop s1)
                * Parallax.speed cfg)%Q).
Proof.
  intros Hr Hn Hy s1.
  assert (E : Qeq_bool (Parallax.scrollY s) (-1) = false).
  { destruct (Qeq_bool (Parallax.scrollY s) (-1)) eqn:E; [|reflexivity].
    apply Qeq_bool_iff in E. lra. }
  assert (Hraf : Parallax.raf s1 = Some (Parallax.scrollY s)).
  { unfold s1. cbn [Parallax.handle]. unfold Parallax.onResize, Parallax.onScroll.
    rewrite Hr. cbn. rewrite E. cbn. now rewrite Hn. }
  split; [apply resize_recomputes|]. split; [exact Hraf|].
  change (Parallax.run cfg s [Parallax.Resize top; Parallax.Frame])
    with (Parallax.onFrame cfg s1).
  unfold Parallax.onFrame. now rewrite Hraf.
Qed.

(** The hero background at scroll position 500 when its container moves
    from 100 to 300. *)
Lemma parallax_resize_forces_update_witness :
  let cfg := Parallax.mk_config 0.25 false in
  let s := Parallax.run cfg (Parallax.mount cfg 500 100) [Parallax.Frame] in
  option_map render
    (Parallax.transform
       (Parallax.run cfg s [Parallax.Resize 300; Parallax.Frame]))
  = Some (Some "translateY(50px) scale(1.05)"%string).
Proof.
  intros cfg s.
  assert (Hy : (0 <= Parallax.scrollY s)%Q) by (vm_compute; discriminate).
  destruct (parallax_resize_forces_update cfg s 300 eq_refl eq_refl Hy)
    as (_ & _ & E).
  rewrite E. reflexivity.
Defined.

(** ** LogoMark *)

Section LogoMarkFacts.
Import LogoMark.
#[local] Open Scope Q_scope.
Variable cfg : config.
Implicit Types (s : state).

Lemma logo_idle_handle s e :
  installed s = false -> transform s = None -> raf s = None ->
  installed (handle cfg s e) = false /\ transform (handle cfg s e) = None
  /\ raf (handle cfg s e) = None /\ animated (handle cfg s e) = animated s.
Proof.
  intros Hi Ht Hn. destruct e; cbn [handle]; rewrite Hi; cbn; auto.
Qed.

Lemma logo_idle_run es : forall s,
  installed s = false -> transform s = None -> raf s = None ->
  transform (run cfg s es) = None /\ animated (run cfg s es) = animated s.
Proof.
  induction es as [|e es IH]; intros s Hi Ht Hn; [auto|].
  cbn [run fold_left]. fold (run cfg (handle cfg s e) es).
  destruct (logo_idle_handle s e Hi Ht Hn) as (H1 & H2 & H3 & H4).
  destruct (IH _ H1 H2 H3) as [I1 I2]. split; congruence.
Qed.

Lemma logo_mount_installed y top :
  reduced cfg = false -> 0 <= y ->
  installed (mount cfg y top) = true
  /\ animated (mount cfg y top) = true
  /\ raf (mount cfg y top) = Some y
  /\ containerTop (mount cfg y top)
     == match top with Some t => t | None => 0 end.
Proof.
  intros Hr Hy. unfold mount, onResize, onScroll. rewrite Hr. cbn.
  destruct (Qeq_bool y (-1)) eqn:E.
  - apply Qeq_bool_iff in E. lra.
  - cbn. repeat split. unfold getContainerTop. cbn.
    destruct top; [ring | reflexivity].
Qed.

End LogoMarkFacts.

(** X17.  Without the reduced-motion preference the logo gets its
    entrance class and the mount requests the first frame.  A frame writes
    [translateY(<offsetY + offset>px)] with
    [offset = (y - containerTop) * parallax], where [y] is the scroll
    position read by the event that requested the frame: after a scroll
    event the frame writes the offset of the position that an already
    pending frame carries, else of the event's own position when that
    differs from the last one handled, and else nothing.  [containerTop]
    is the container's top on the page, or 0 when the logo has no
    container. *)
Theorem logo_sets_transform (cfg : LogoMark.config) (y : Q) (top : option Q) :
  LogoMark.reduced cfg = false -> (0 <= y)%Q ->
  let m := LogoMark.mount cfg y top in
  let text (offset : Q) :=
    [Text "translateY("; Number (LogoMark.offsetY cfg + offset)%Q; Text "px)"] in
  LogoMark.animated m = true
  /\ LogoMark.installed m = true
  /\ (LogoMark.containerTop m == match top with Some t => t | None => 0 end)%Q
  /\ LogoMark.transform (LogoMark.run cfg m [LogoMark.Frame])
     = Some (text ((y - LogoMark.containerTop m) * LogoMark.parallax cfg)%Q)
  /\ (forall s y',
        LogoMark.installed s = true ->
        LogoMark.transform
          (LogoMark.run cfg s [LogoMark.Scroll y'; LogoMark.Frame])
        = match LogoMark.raf s with
          | Some pending =>
              Some (text ((pending - LogoMark.containerTop s)
                          * LogoMark.parallax cfg)%Q)
          | None =>
              if Qeq_bool y' (LogoMark.lastY s) then LogoMark.transform s
              else Some (text ((y' - LogoMark.containerTop s)
                               * LogoMark.parallax cfg)%Q)
          end).
Proof.
  intros Hr Hy m text.
  destruct (logo_mount_installed cfg y top Hr Hy) as (Hi & Ha & Hraf & Hct).
  fold m in Hi, Ha, Hraf, Hct.
  split; [exact Ha|]. split; [exact Hi|]. split; [exact Hct|]. split.
  - cbn [LogoMark.run fold_left LogoMark.handle]. rewrite Hi.
    unfold LogoMark.onFrame. rewrite Hraf. reflexivity.
  - intros s y' Hs.
    cbn [LogoMark.run fold_left LogoMark.handle]. rewrite Hs.
    unfold LogoMark.onScroll.
    cbn [LogoMark.scrollY LogoMark.lastY LogoMark.raf].
    destruct (Qeq_bool y' (LogoMark.lastY s)) eqn:E;
      cbn [LogoMark.installed]; rewrite ?Hs;
      unfold LogoMark.onFrame;
      cbn [LogoMark.raf LogoMark.containerTop];
      destruct (LogoMark.raf s) as [pending|]; reflexivity.
Qed.

(** The logo as [App] renders it (parallax 0.12, offsetY -6), section at
    the top of the page: scrolled to 50 after the first frame it stands at
    [translateY(0px)]; scrolled to 500 before the first frame it is written
    for position 0, [translateY(-6px)]. *)
Lemma logo_sets_transform_witness :
  let cfg := LogoMark.mk_config 0.12 (-6) false in
  let m := LogoMark.mount cfg 0 (Some 0) in
  let s := LogoMark.run cfg m [LogoMark.Frame] in
  LogoMark.reduced cfg = false /\ (0 <= 0)%Q
  /\ option_map render
       (LogoMark.transform
          (LogoMark.run cfg s [LogoMark.Scroll 50; LogoMark.Frame]))
     = Some (Some "translateY(0px)"%string)
  /\ option_map render
       (LogoMark.transform
          (LogoMark.run cfg m [LogoMark.Scroll 500; LogoMark.Frame]))
     = Some (Some "translateY(-6px)"%string).
Proof.
  intros cfg m s.
  assert (H0 : (0 <= 0)%Q) by apply Qle_refl.
  destruct (logo_sets_transform cfg 0 (Some 0) eq_refl H0) as (_ & _ & _ & _ & H).
  split; [reflexivity|]. split; [exact H0|]. split.
  - rewrite (H s 50 eq_refl). reflexivity.
  - rewrite (H m 500 eq_refl). reflexivity.
Defined.

(** X18.  With the reduced-motion preference set the logo gets no
    entrance class and its transform is never written, whatever events
    follow the mount. *)
Theorem logo_reduced_is_still
    (cfg : LogoMark.config) (y : Q) (top : option Q)
    (es : list LogoMark.event) :
  LogoMark.reduced cfg = true ->
  LogoMark.animated (LogoMark.run cfg (LogoMark.mount cfg y top) es) = false
  /\ LogoMark.transform (LogoMark.run cfg (LogoMark.mount cfg y top) es) = None.
Proof.
  intros Hr.
  assert (Hm : LogoMark.mount cfg y top
               = LogoMark.mk_state y top false false None (-1) 0 None).
  { unfold LogoMark.mount. now rewrite Hr. }
  rewrite Hm.
  destruct (logo_idle_run cfg es
              (LogoMark.mk_state y top false false None (-1) 0 None)
              eq_refl eq_refl eq_refl) as [H1 H2].
  split; [rewrite H2; reflexivity | exact H1].
Qed.

(** The logo of the page under reduced motion. *)
Lemma logo_reduced_is_still_witness :
  LogoMark.transform
    (LogoMark.run (LogoMark.mk_config 0.12 (-6) true)
       (LogoMark.mount (LogoMark.mk_config 0.12 (-6) true) 0 (Some 0))
       [LogoMark.Scroll 50; LogoMark.Frame; LogoMark.Resize None; LogoMark.Frame])
  = None.
Proof.
  apply (logo_reduced_is_still (LogoMark.mk_config 0.12 (-6) true) 0 (Some 0)).
  reflexivity.
Defined.

(** ** hexWithAlpha *)

Section ColourFacts.
Import Colour.
#[local] Open Scope Z_scope.

Lemma hex_value_range c v : hex_value c = Some v -> 0 <= v <= 15.
Proof.
  unfold hex_value. set (k := Z.of_nat (nat_of_ascii c)).
  destruct (Z.leb_spec 48 k), (Z.leb_spec k 57); cbn;
    try (intros [= <-]; lia);
    destruct (Z.leb_spec 97 k), (Z.leb_spec k 102); cbn;
    try (intros [= <-]; lia);
    destruct (Z.leb_spec 65 k), (Z.leb_spec k 70); cbn;
    try (intros [= <-]; lia); discriminate.
Qed.

Lemma channel_range hi lo v : channel hi lo = Some v -> 0 <= v <= 255.
Proof.
  unfold channel.
  destruct (hex_value hi) as [h|] eqn:Hh; [|discriminate].
  destruct (hex_value lo) as [l|] eqn:Hl; [|discriminate].
  intros [= <-]. apply hex_value_range in Hh, Hl. lia.
Qed.

Lemma hex_value_upcase c : hex_value (upcase_ascii c) = hex_value c.
Proof.
  destruct c as [[] [] [] [] [] [] [] []]; reflexivity.
Qed.

Lemma channel_upcase hi lo :
  channel (upcase_ascii hi) (upcase_ascii lo) = channel hi lo.
Proof. unfold channel. now rewrite !hex_value_upcase. Qed.

Lemma upcase_hash c : upcase_ascii c = "#"%char <-> c = "#"%char.
Proof.
  destruct c as [[] [] [] [] [] [] [] []]; split; intros H;
    first [reflexivity | discriminate H].
Qed.

Lemma strip_hash_upcase s : strip_hash (upcase s) = upcase (strip_hash s).
Proof.
  destruct s as [|c s]; [reflexivity|]. cbn [upcase].
  destruct (ascii_dec c "#"%char) as [->|Hne]; [reflexivity|].
  assert (Hu : upcase_ascii c <> "#"%char) by (rewrite upcase_hash; exact Hne).
  unfold strip_hash.
  destruct c as [[] [] [] [] [] [] [] []]; try reflexivity; congruence.
Qed.

Lemma match_hex_upcase s : match_hex (upcase s) = match_hex s.
Proof.
  unfold match_hex. rewrite strip_hash_upcase.
  destruct (strip_hash s) as [|r1 [|r2 [|g1 [|g2 [|b1 [|b2 [|x t]]]]]]];
    try reflexivity.
  cbn [upcase]. now rewrite !channel_upcase.
Qed.

Lemma six_hex_matches s :
  six_hex s -> strip_hash s = s /\ exists rgb, match_hex s = Some rgb.
Proof.
  intros [Hlen Hall].
  destruct s as [|r1 [|r2 [|g1 [|g2 [|b1 [|b2 [|x t]]]]]]]; try discriminate Hlen.
  cbn [list_ascii_of_string] in Hall.
  repeat match goal with
         | H : Forall _ (_ :: _) |- _ => apply Forall_cons in H as [? H]
         end.
  assert (Hs : strip_hash (String r1 (String r2 (String g1 (String g2
                 (String b1 (String b2 EmptyString))))))
               = String r1 (String r2 (String g1 (String g2
                 (String b1 (String b2 EmptyString)))))).
  { unfold strip_hash.
    destruct r1 as [[] [] [] [] [] [] [] []]; try reflexivity.
    exfalso. auto. }
  split; [exact Hs|].
  unfold match_hex. rewrite Hs. unfold channel.
  destruct (hex_value r1), (hex_value r2), (hex_value g1), (hex_value g2),
    (hex_value b1), (hex_value b2); try congruence.
  eauto.
Qed.
End ColourFacts.

(** X19.  When the pattern matches, each of the three channels written
    into [rgba(...)] is an integer between 0 and 255, and the alpha is
    passed through as given. *)
Theorem hexWithAlpha_channels (hex : string) (alpha : Q) (r g b : Z) :
  Colour.match_hex hex = Some (r, g, b) ->
  (0 <= r <= 255)%Z /\ (0 <= g <= 255)%Z /\ (0 <= b <= 255)%Z
  /\ Colour.hexWithAlpha hex alpha
     = [Text "rgba("; Number (inject_Z r); Text ", "; Number (inject_Z g);
        Text ", "; Number (inject_Z b); Text ", "; Number alpha; Text ")"].
Proof.
  intros H. split; [|split; [|split]].
  4: { unfold Colour.hexWithAlpha. now rewrite H. }
  all: unfold Colour.match_hex in H;
    destruct (Colour.strip_hash hex)
      as [|r1 [|r2 [|g1 [|g2 [|b1 [|b2 [|x t]]]]]]]; try discriminate H;
    destruct (Colour.channel r1 r2) as [r'|] eqn:Hr; [|discriminate H];
    destruct (Colour.channel g1 g2) as [g'|] eqn:Hg; [|discriminate H];
    destruct (Colour.channel b1 b2) as [b'|] eqn:Hb; [|discriminate H];
    injection H as <- <- <-;
    eauto using channel_range.
Qed.

(** The accent colour of the palettes. *)
Lemma hexWithAlpha_channels_witness :
  Colour.hexWithAlpha "#1E5630" 0.12
  = [Text "rgba("; Number 30; Text ", "; Number 86;
     Text ", "; Number 48; Text ", "; Number 0.12; Text ")"].
Proof.
  apply (hexWithAlpha_channels "#1E5630" 0.12 30 86 48).
  reflexivity.
Defined.

(** X20.  A colour that is not six hex digits after the optional hash
    (three or eight digits, or a character outside 0-9, a-f, A-F) is
    returned unchanged, and the alpha is dropped. *)
Theorem hexWithAlpha_passthrough (hex : string) (alpha : Q) :
  String.length (Colour.strip_hash hex) <> 6%nat
  \/ Exists (fun c => Colour.hex_value c = None)
       (list_ascii_of_string (Colour.strip_hash hex)) ->
  Colour.hexWithAlpha hex alpha = [Text hex].
Proof.
  intros H. unfold Colour.hexWithAlpha, Colour.match_hex.
  destruct (Colour.strip_hash hex)
    as [|r1 [|r2 [|g1 [|g2 [|b1 [|b2 [|x t]]]]]]]; try reflexivity.
  destruct H as [H|H]; [cbn in H; congruence|].
  cbn [list_ascii_of_string] in H. unfold Colour.channel.
  repeat match goal with
         | H : Exists _ (_ :: _) |- _ => apply Exists_cons in H as [H|H]
         | H : Exists _ [] |- _ => apply Exists_nil in H; contradiction
         end;
    rewrite H;
    destruct (Colour.hex_value r1), (Colour.hex_value r2),
      (Colour.hex_value g1), (Colour.hex_value g2),
      (Colour.hex_value b1), (Colour.hex_value b2); reflexivity.
Qed.

(** The card background of the "bold" palette has eight digits. *)
Lemma hexWithAlpha_passthrough_witness :
  Colour.hexWithAlpha "#FFFFFFE6" 0.95 = [Text "#FFFFFFE6"].
Proof.
  apply (hexWithAlpha_passthrough "#FFFFFFE6" 0.95).
  left. cbn. lia.
Defined.

(** X21.  Six hex digits always match, with or without the leading hash
    and with the same result, and the case of the letters never matters. *)
Theorem hexWithAlpha_hash_and_case (s : string) (alpha : Q) :
  Colour.six_hex s ->
  (exists r g b, Colour.match_hex s = Some (r, g, b))
  /\ Colour.hexWithAlpha (String "#" s) alpha = Colour.hexWithAlpha s alpha
  /\ Colour.match_hex (Colour.upcase s) = Colour.match_hex s
  /\ (forall t, Colour.match_hex (Colour.upcase t) = Colour.match_hex t).
Proof.
  intros H. destruct (six_hex_matches s H) as (Hs & [[r g] b] & Hm).
  split; [eauto|]. split.
  - unfold Colour.hexWithAlpha.
    assert (E : Colour.match_hex (String "#" s) = Colour.match_hex s).
    { unfold Colour.match_hex at 1 2. rewrite Hs. reflexivity. }
    rewrite E, Hm. reflexivity.
  - split; [apply match_hex_upcase | intros t; apply match_hex_upcase].
Qed.

(** The accent colour without its hash and in lower case. *)
Lemma hexWithAlpha_hash_and_case_witness :
  Colour.hexWithAlpha "#1e5630" 0.12 = Colour.hexWithAlpha "1e5630" 0.12.
Proof.
  apply (hexWithAlpha_hash_and_case "1e5630" 0.12).
  split; [reflexivity|]. repeat constructor; discriminate.
Defined.

(** ** Navigation highlight *)

Section NavFacts.
Import SectionObserver NavLinks.

Lemma callback_in (ids : list string) entries : forall active,
  In active ids ->
  Forall (fun e => In (target e) ids) entries ->
  In (callback active entries) ids.
Proof.
  induction entries as [|e es IH]; intros active Ha Hes; [exact Ha|].
  inversion Hes as [|? ? He Hes']; subst.
  unfold callback in *. cbn [fold_left].
  apply IH; [|exact Hes']. destruct (isIntersecting e); assumption.
Qed.

Lemma observed_are_sections document secs i :
  In i (observed document secs) -> In i (List.map id secs).
Proof. unfold observed. intros H. apply filter_In in H. tauto. Qed.

Lemma deliver_in document secs active entries :
  In active (List.map id secs) ->
  In (deliver document secs active entries) (List.map id secs).
Proof.
  intros Ha. unfold deliver. apply callback_in; [exact Ha|].
  rewrite List.Forall_forall. intros e He. apply filter_In in He as [_ He].
  apply bool_decide_eq_true in He. apply list_elem_of_In in He.
  now apply observed_are_sections in He.
Qed.

Lemma run_in document secs batches : forall active,
  In active (List.map id secs) ->
  In (run document secs active batches) (List.map id secs).
Proof.
  induction batches as [|b bs IH]; intros active Ha; [exact Ha|].
  cbn [run fold_left]. fold (run document secs (deliver document secs active b) bs).
  apply IH. now apply deliver_in.
Qed.

Lemma one_highlight secs active :
  List.NoDup (List.map id secs) -> In active (List.map id secs) ->
  count_occ bool_dec (highlights secs active) true = 1%nat.
Proof.
  unfold highlights, is_active.
  induction secs as [|x xs IH]; cbn [List.map]; intros Hnd Hin; [contradiction|].
  inversion Hnd as [|? ? Hx Hxs]; subst.
  destruct (String.eqb_spec active (id x)) as [E|E].
  - rewrite count_occ_cons_eq by reflexivity. f_equal.
    apply count_occ_not_In. intros Hc. apply in_map_iff in Hc as (y & Hy & Hyin).
    apply String.eqb_eq in Hy. apply Hx. rewrite <- E, Hy.
    now apply in_map.
  - rewrite count_occ_cons_neq by discriminate.
    apply IH; [exact Hxs|]. destruct Hin as [Hin|Hin]; [congruence | exact Hin].
Qed.
End NavFacts.

(** X22.  Whatever the observer reports and whichever sections exist in
    the document, the active id stays one of the four section ids of
    [App], so exactly one navigation link carries the active style. *)
Theorem nav_exactly_one_active
    (document : list string) (batches : list (list SectionObserver.entry)) :
  let active :=
    SectionObserver.run document SectionObserver.sections
      SectionObserver.init batches in
  In active (List.map SectionObserver.id SectionObserver.sections)
  /\ count_occ bool_dec
       (NavLinks.highlights SectionObserver.sections active) true = 1%nat.
Proof.
  intros active.
  assert (Hin : In active (List.map SectionObserver.id SectionObserver.sections)).
  { apply run_in. cbn. tauto. }
  split; [exact Hin|]. apply one_highlight; [|exact Hin].
  cbn. repeat constructor; cbn; intuition discriminate.
Qed.

(** ** Effects outside the four components, and pending frames *)

Section PageEffectsFacts.
Import Browser Effects PageEffects.
#[local] Open Scope positive_scope.

(** The handles named by the cleanup calls, as arithmetic facts. *)
#[local] Ltac handles :=
  repeat match goal with
         | H : Forall _ (_ :: _) |- _ => apply Forall_cons in H as [? ?]
         | H : Forall _ [] |- _ => clear H
         end;
  cbn in *.

(** One table: instantiate its bookkeeping fact and decide membership. *)
#[local] Ltac table_with H x :=
  let Hx := fresh "Hx" in
  pose proof (H x) as Hx;
  repeat match goal with H' : ∀ _, _ ↔ _ |- _ => clear H' end;
  first [ destruct x as [[? ?] ?] | destruct x as [? ?] | idtac ];
  set_unfold; cbn in *; naive_solver.

#[local] Ltac table :=
  first
    [ assumption
    | let x := fresh "x" in
      intros x;
      lazymatch goal with
      | H : ∀ _, _ ↔ _ |- _ =>
          match goal with
          | H : ∀ _, _ ↔ _ |- context [frames] =>
              lazymatch type of H with context [frames] => table_with H x end
          | H : ∀ _, _ ↔ _ |- context [intervals] =>
              lazymatch type of H with context [intervals] => table_with H x end
          | H : ∀ _, _ ↔ _ |- context [listeners] =>
              lazymatch type of H with context [listeners] => table_with H x end
          | H : ∀ _, _ ↔ _ |- context [observing] =>
              lazymatch type of H with context [observing] => table_with H x end
          end
      | |- _ => set_unfold; naive_solver
      end ].

#[local] Ltac books :=
  unfold owned in *; cbn in *;
  repeat match goal with H : _ ∧ _ |- _ => destruct H end;
  handles;
  split_and!;
  [ lia
  | repeat first [apply Forall_nil_2 | apply Forall_cons_2; [cbn; lia|]]
  | table .. ].

Lemma logoMark_respects installed request :
  respects (logoMark installed request).
Proof.
  intros b0 Wf. split.
  - cbn. unfold logoMark_mount, parallax_install.
    destruct installed; [|apply owned_initial].
    destruct request; cbn; books.
  - intros sig [[l|] b] H; cbn [react logoMark parallax_react fst snd];
      [|exact H].
    destruct sig as [| |r].
    + destruct l as [[h|] f g]; cbn in *; [|exact H].
      assert (Hh : h ∉ frames b0).
      { eapply fresh_not_before; [exact Wf | exact H | set_solver]. }
      clear Wf. books.
    + exact H.
    + destruct l as [[h|] f g]; destruct r; cbn in *; try exact H.
      books.
Qed.

Lemma anchorClick_respects : respects anchorClick.
Proof.
  intros b0 Wf. split; [|intros sig st H; exact H].
  books.
Qed.

Lemma page_effect_respects e : page_effect e -> respects e.
Proof.
  destruct 1; auto using logoMark_respects, anchorClick_respects.
Qed.

Lemma holds_frames_disjoint b0 pending b :
  well_formed b0 -> holds_frames b0 pending b -> pending ## frames b0.
Proof.
  intros (Wf & _) (_ & Hp & _). apply elem_of_disjoint. intros h Hh Hb.
  destruct (Hp h Hh) as [H1 _]. specialize (Wf h Hb). lia.
Qed.

Lemma ticker_holds_frames sigs b0 :
  well_formed b0 ->
  holds_frames b0 (ticker_pending (run (ticker true) sigs b0).1)
    (run (ticker true) sigs b0).2
  /\ exists l, (run (ticker true) sigs b0).1 = Some l.
Proof.
  intros Wf. unfold run.
  induction sigs as [|sig sigs IH] using List.rev_ind.
  - cbn. split; [|eauto]. unfold holds_frames. cbn.
    split_and!; [lia | intros h Hh; set_unfold; subst; lia | reflexivity].
  - rewrite fold_left_app. cbn [fold_left].
    destruct (fold_left (λ st sig0, react (ticker true) sig0 st) sigs
                (mount (ticker true) b0)) as [l b].
    destruct IH as [(Hn & Hp & Hf) [tl Hl]]. cbn in Hl. subst l.
    pose proof (holds_frames_disjoint b0 _ b Wf (conj Hn (conj Hp Hf))) as Hd.
    cbn in Hn, Hp, Hf, Hd |- *.
    destruct sig; cbn; try (split; [split_and!; assumption | eauto]).
    split; [|eauto]. unfold holds_frames. cbn.
    destruct (Hp (rafId tl) ltac:(set_solver)) as [H1 H2].
    split_and!; [lia | intros h Hh; set_unfold; subst; lia |].
    rewrite Hf. set_solver.
Qed.

Lemma parallax_holds_frames present request sigs b0 :
  well_formed b0 ->
  holds_frames b0
    (parallax_pending (run (parallax present request) sigs b0).1)
    (run (parallax present request) sigs b0).2.
Proof.
  intros Wf. unfold run.
  induction sigs as [|sig sigs IH] using List.rev_ind.
  - cbn. unfold parallax_mount, parallax_install, holds_frames.
    destruct present, request; cbn;
      (split_and!; [lia | intros h Hh; set_unfold; subst; lia | set_solver]).
  - rewrite fold_left_app. cbn [fold_left].
    destruct (fold_left (λ st sig0, react (parallax present request) sig0 st)
                sigs (mount (parallax present request) b0)) as [l b].
    pose proof (holds_frames_disjoint b0 _ b Wf IH) as Hd.
    destruct IH as (Hn & Hp & Hf). cbn in Hn, Hp, Hf, Hd.
    cbn [react parallax parallax_react fst snd].
    destruct l as [[[h|] f g]|]; cbn in *;
      [| |split_and!; assumption].
    + destruct (Hp h ltac:(set_solver)) as [H1 H2].
      destruct sig as [| |[]]; cbn; unfold holds_frames; cbn;
        try (split_and!; assumption).
      split_and!; [lia | intros h' Hh'; set_solver |].
      rewrite Hf. set_solver.
    + destruct sig as [| |[]]; cbn; unfold holds_frames; cbn;
        try (split_and!; assumption).
      split_and!; [lia | intros h' Hh'; set_unfold; subst; lia |].
      rewrite Hf. set_solver.
Qed.
End PageEffectsFacts.

(** X23.  The scroll effect of LogoMark and the anchor click listener of
    App clean up like the effects of the four components: after any
    signals the cleanup can run twice, the second run changes nothing, and
    the browser's tables are those from before the mount. *)
Theorem page_effects_teardown
    (e : Effects.effect) (b0 : Browser.browser) (sigs : list Effects.signal) :
  PageEffects.page_effect e -> Browser.well_formed b0 ->
  Browser.tables (Effects.unmount e sigs 1 b0) = Browser.tables b0
  /\ Effects.unmount e sigs 2 b0 = Effects.unmount e sigs 1 b0.
Proof.
  intros He Wf.
  pose proof (run_owned e sigs b0 (page_effect_respects e He) Wf) as Hown.
  unfold Effects.unmount.
  destruct (Effects.run e sigs b0) as [l b] eqn:Hrun. cbn in Hown |- *.
  rewrite teardown_twice.
  split; [exact (owned_restores b0 _ b Wf Hown) | reflexivity].
Qed.

(** The logo's effect on an empty page: a scroll, its frame, a second
    scroll, then the cleanup. *)
Lemma page_effects_teardown_witness :
  Browser.tables
    (Effects.unmount (PageEffects.logoMark true true)
       [Effects.Dispatch true; Effects.FrameFires; Effects.Dispatch true]
       1 Browser.empty)
  = Browser.tables Browser.empty.
Proof.
  assert (Wf : Browser.well_formed Browser.empty).
  { unfold Browser.well_formed, Browser.empty. cbn. set_solver. }
  exact (proj1 (page_effects_teardown (PageEffects.logoMark true true)
                  Browser.empty
                  [Effects.Dispatch true; Effects.FrameFires;
                   Effects.Dispatch true]
                  (PageEffects.is_logoMark true true) Wf)).
Defined.

(** X24.  While the strip's ticker effect is mounted exactly one of its
    frame requests is pending at any time: every frame callback takes the
    old request and leaves one new one, so the loop neither dies nor
    doubles. *)
Theorem ticker_keeps_one_frame
    (b0 : Browser.browser) (sigs : list Effects.signal) :
  Browser.well_formed b0 ->
  let st := Effects.run (Effects.ticker true) sigs b0 in
  exists l,
    fst st = Some l
    /\ Browser.frames (snd st) = {[ Effects.rafId l ]} ∪ Browser.frames b0
    /\ (Effects.rafId l ∉ Browser.frames b0)
    /\ size (Browser.frames (snd st)) = S (size (Browser.frames b0)).
Proof.
  intros Wf st.
  destruct (ticker_holds_frames sigs b0 Wf) as [H [l Hl]]. fold st in H, Hl.
  pose proof (holds_frames_disjoint b0 _ _ Wf H) as Hd.
  destruct H as (_ & _ & Hf). clearbody st. cbn [fst snd] in *.
  rewrite Hl in Hf, Hd. cbn [PageEffects.ticker_pending] in Hf, Hd.
  exists l. split; [exact Hl|]. split; [exact Hf|]. split; [set_solver|].
  rewrite Hf, size_union by exact Hd. now rewrite size_singleton.
Qed.

(** An empty page, three frames. *)
Lemma ticker_keeps_one_frame_witness :
  size (Browser.frames
          (Effects.run (Effects.ticker true)
             [Effects.FrameFires; Effects.FrameFires; Effects.FrameFires]
             Browser.empty).2) = 1%nat.
Proof.
  assert (Wf : Browser.well_formed Browser.empty).
  { unfold Browser.well_formed, Browser.empty. cbn. set_solver. }
  destruct (ticker_keeps_one_frame Browser.empty
              [Effects.FrameFires; Effects.FrameFires; Effects.FrameFires] Wf)
    as (l & _ & _ & _ & H).
  exact H.
Defined.

(** X25.  While the parallax hook is mounted its pending frame requests
    are exactly the one recorded in [raf], if any: however many scroll and
    resize events arrive, it has at most one frame request outstanding. *)
Theorem parallax_holds_one_frame
    (present request : bool) (b0 : Browser.browser)
    (sigs : list Effects.signal) :
  Browser.well_formed b0 ->
  let st := Effects.run (Effects.parallax present request) sigs b0 in
  Browser.frames (snd st) = PageEffects.parallax_pending (fst st) ∪ Browser.frames b0
  /\ PageEffects.parallax_pending (fst st) ## Browser.frames b0
  /\ (size (Browser.frames (snd st)) <= S (size (Browser.frames b0)))%nat.
Proof.
  intros Wf st.
  pose proof (parallax_holds_frames present request sigs b0 Wf) as H.
  fold st in H.
  pose proof (holds_frames_disjoint b0 _ _ Wf H) as Hd.
  destruct H as (_ & _ & Hf). clearbody st.
  split; [exact Hf|]. split; [exact Hd|].
  rewrite Hf, size_union by exact Hd.
  assert (size (PageEffects.parallax_pending (fst st)) <= 1)%nat; [|lia].
  unfold PageEffects.parallax_pending.
  destruct (fst st) as [[[h|] f g]|]; cbn;
    rewrite ?size_singleton, ?size_empty; lia.
Qed.

(** An empty page, five scroll events before the frame. *)
Lemma parallax_holds_one_frame_witness :
  (size (Browser.frames
           (Effects.run (Effects.parallax true true)
              (repeat (Effects.Dispatch true) 5) Browser.empty).2)
   <= 1)%nat.
Proof.
  assert (Wf : Browser.well_formed Browser.empty).
  { unfold Browser.well_formed, Browser.empty. cbn. set_solver. }
  exact (proj2 (proj2 (parallax_holds_one_frame true true Browser.empty
                         (repeat (Effects.Dispatch true) 5) Wf))).
Defined.

(** ** Autoplay rounds and unwrapped distance *)

Section CycleFacts.
Import GalleryCarousel CarouselView.
#[local] Open Scope Z_scope.
Context {A : Type}.
Implicit Types (images : list A) (s : state).

Lemma autoplay_round_step images s :
  paused s = false -> isAnimating s = true -> 1 <= index s <= n images ->
  run images s autoplay_round
  = mk_state (if index s =? n images then 1 else index s + 1) true false.
Proof.
  intros Hp Ha Hi.
  assert (Hlen : (1 <= length images)%nat) by (unfold n in Hi; lia).
  pose proof (slen_nonempty images Hlen) as Hs.
  destruct s as [i a p]. cbn in Hp, Ha, Hi |- *. subst a p.
  unfold autoplay_round. cbn [run fold_left step].
  unfold onInterval, autoplay_installed. cbn [paused orb]. rewrite Hs.
  destruct (Z.eqb_spec (n images + 2) 0) as [E|_]; [lia|]. cbn [negb].
  unfold onEnd, setAnimating, setIndex. cbn [index isAnimating paused].
  rewrite Hs.
  destruct (Z.eqb_spec i (n images)) as [E|E].
  - rewrite E. replace (n images + 2 - 1) with (n images + 1) by lia.
    rewrite Z.eqb_refl. reflexivity.
  - destruct (Z.eqb_spec (i + 1) (n images + 2 - 1)); [lia|].
    destruct (Z.eqb_spec (i + 1) 0); [lia|]. reflexivity.
Qed.

Lemma autoplay_rounds_state images s k :
  paused s = false -> isAnimating s = true -> 1 <= index s <= n images ->
  run images s (autoplay_rounds k)
  = match k with
    | O => s
    | S _ => mk_state ((index s - 1 + Z.of_nat k) mod n images + 1) true false
    end.
Proof.
  intros Hp Ha Hi. revert s Hp Ha Hi.
  assert (Hpos : forall s, 1 <= index s <= n images -> 0 < n images) by (intros; lia).
  induction k as [|k IH]; intros s Hp Ha Hi; [reflexivity|].
  unfold autoplay_rounds. cbn [repeat List.concat].
  unfold run. rewrite fold_left_app.
  fold (run images s autoplay_round).
  fold (run images (run images s autoplay_round)
          (List.concat (repeat autoplay_round k))).
  fold (autoplay_rounds k).
  rewrite (autoplay_round_step images s Hp Ha Hi).
  set (i1 := if index s =? n images then 1 else index s + 1).
  assert (Hi1 : 1 <= i1 <= n images)
    by (unfold i1; destruct (Z.eqb_spec (index s) (n images)); lia).
  assert (Hmod : (i1 - 1) mod n images = index s mod n images).
  { unfold i1. destruct (Z.eqb_spec (index s) (n images)) as [E|E].
    - rewrite E. rewrite Z.mod_same by lia. reflexivity.
    - f_equal. lia. }
  rewrite IH by (cbn; auto). cbn [index].
  destruct k as [|k'].
  - f_equal.
    replace (index s - 1 + Z.of_nat 1) with (index s) by lia.
    rewrite <- Hmod. rewrite Z.mod_small by lia. lia.
  - f_equal. f_equal.
    rewrite <- (Z.add_mod_idemp_l (i1 - 1)) by lia. rewrite Hmod.
    rewrite Z.add_mod_idemp_l by lia. f_equal. lia.
Qed.
End CycleFacts.

(** X26.  Left alone on a real slide, with as many autoplay rounds
    (interval tick, end of transition, next frame) as there are images,
    the carousel is back in the state it started from; after [k] rounds
    the index is [((index - 1 + k) mod n) + 1]. *)
Theorem carousel_autoplay_is_cyclic {A : Type} (images : list A)
    (s : GalleryCarousel.state) (k : nat) :
  GalleryCarousel.paused s = false ->
  GalleryCarousel.isAnimating s = true ->
  (1 <= GalleryCarousel.index s <= GalleryCarousel.n images)%Z ->
  GalleryCarousel.run images s (CarouselView.autoplay_rounds (length images)) = s
  /\ GalleryCarousel.index
       (GalleryCarousel.run images s (CarouselView.autoplay_rounds k))
     = ((GalleryCarousel.index s - 1 + Z.of_nat k)
        mod GalleryCarousel.n images + 1)%Z.
Proof.
  intros Hp Ha Hi. split.
  - rewrite (autoplay_rounds_state images s (length images) Hp Ha Hi).
    destruct (length images) as [|m] eqn:Hlen;
      [unfold GalleryCarousel.n in Hi; lia|].
    destruct s as [i a p]. cbn in Hp, Ha, Hi |- *. subst a p. f_equal.
    unfold GalleryCarousel.n in *. rewrite Hlen in *.
    replace (i - 1 + Z.of_nat (S m))%Z
      with (i - 1 + 1 * Z.of_nat (S m))%Z by lia.
    rewrite Z.mod_add by lia. rewrite Z.mod_small by lia. lia.
  - rewrite (autoplay_rounds_state images s k Hp Ha Hi).
    destruct k; [|reflexivity].
    replace (GalleryCarousel.index s - 1 + Z.of_nat 0)%Z
      with (GalleryCarousel.index s - 1)%Z by lia.
    rewrite Z.mod_small by lia. lia.
Qed.

(** Three images, from the second one. *)
Lemma carousel_autoplay_is_cyclic_witness :
  GalleryCarousel.run ["a"; "b"; "c"]%string
    (GalleryCarousel.mk_state 2 true false)
    (CarouselView.autoplay_rounds (length ["a"; "b"; "c"]%string))
  = GalleryCarousel.mk_state 2 true false.
Proof.
  apply (carousel_autoplay_is_cyclic ["a"; "b"; "c"]%string
           (GalleryCarousel.mk_state 2 true false) 0).
  - reflexivity.
  - reflexivity.
  - unfold GalleryCarousel.n. cbn. lia.
Defined.

(** ** AutoScrollGallery on the scroll container: a wide container *)

Section WideContainerFacts.
Import ScrollContainer.
#[local] Open Scope Q_scope.
Variable cfg : AutoScrollGallery.config.
Implicit Types (s : state).

Lemma container_step_frame ts s :
  scrollWidth (el (step cfg ts s)) = scrollWidth (el s)
  /\ clientWidth (el (step cfg ts s)) = clientWidth (el s)
  /\ isPaused (step cfg ts s) = isPaused s.
Proof.
  unfold step. destruct (ticker s); [|auto].
  cbn [el isPaused]. destruct (isPaused s); [auto|].
  cbn [set_scrollLeft scrollLeft scrollWidth clientWidth].
  destruct (Qle_bool _ _); auto.
Qed.

Lemma container_frames_keep tss : forall s,
  laid_out s -> in_first_half s -> ticker s <> None ->
  let s' := run cfg s (List.map Frame tss) in
  laid_out s' /\ ticker s' <> None
  /\ scrollWidth (el s') = scrollWidth (el s)
  /\ clientWidth (el s') = clientWidth (el s)
  /\ isPaused s' = isPaused s.
Proof.
  induction tss as [|t tss IH]; intros s Hl Hin Ht; [cbn; auto|].
  cbn [List.map run fold_left handle].
  fold (run cfg (step cfg t s) (List.map Frame tss)).
  destruct (container_step_keeps cfg t s Hl Hin Ht) as (H1 & H2 & H3).
  destruct (container_step_frame t s) as (W1 & W2 & W3).
  destruct (IH _ H1 H2 H3) as (I1 & I2 & I3 & I4 & I5).
  cbv zeta in *. rewrite I3, I4, I5. auto.
Qed.

(** What the element keeps, case by case. *)
Lemma clamp_cases sw cw x :
  (x < 0 -> clamp sw cw x = 0)
  /\ (0 <= x -> x <= maxScroll sw cw -> clamp sw cw x = x)
  /\ (maxScroll sw cw < x -> clamp sw cw x = maxScroll sw cw).
Proof.
  pose proof (maxScroll_nonneg sw cw) as Hm. split; [|split].
  - intros Hx. unfold clamp. destruct (Qle_bool 0 x) eqn:E; [|reflexivity].
    apply Qle_bool_iff in E. lra.
  - apply clamp_inside.
  - intros Hx. unfold clamp. assert (H0 : 0 <= x) by lra.
    apply Qle_bool_iff in H0. rewrite H0.
    destruct (Qle_bool x (maxScroll sw cw)) eqn:E; [|reflexivity].
    apply Qle_bool_iff in E. lra.
Qed.

(** With more than half the track in view the end of the scrollable
    range lies before the half-width. *)
Lemma wide_range_below_half sw cw :
  0 < sw -> sw / 2 < cw -> maxScroll sw cw < sw / 2.
Proof.
  intros Hsw Hcw. pose proof (half_positive _ Hsw) as Hh.
  assert (Eh : sw / 2 == sw * (1 # 2)) by reflexivity.
  destruct (maxScroll_cases sw cw) as [[_ ->]|[_ ->]]; lra.
Qed.
End WideContainerFacts.

(** X28.  When the container shows more than half of the track, the
    strip never wraps.  After any number of frames of the unpaused strip
    the offset is at most [max (0, scrollWidth - clientWidth)], which lies
    below the half-width; every further frame stores the offset it asks for
    as the element keeps it and takes nothing off; and for a non-negative
    speed and a frame that is not earlier than the one before, an offset at
    the end of the range stays there: the strip stands still. *)
Theorem container_wide_strip_never_wraps
    (cfg : AutoScrollGallery.config) (s : ScrollContainer.state)
    (tss : list Q) :
  ScrollContainer.laid_out s ->
  ScrollContainer.ticker s <> None ->
  ScrollContainer.isPaused s = false ->
  (ScrollContainer.scrollWidth (ScrollContainer.el s) / 2
   < ScrollContainer.clientWidth (ScrollContainer.el s))%Q ->
  let sw := ScrollContainer.scrollWidth (ScrollContainer.el s) in
  let cw := ScrollContainer.clientWidth (ScrollContainer.el s) in
  let top := (if Qle_bool 0 (sw - cw) then sw - cw else 0)%Q in
  let s' := ScrollContainer.run cfg s (List.map ScrollContainer.Frame tss) in
  let left := ScrollContainer.scrollLeft (ScrollContainer.el s') in
  (top < sw / 2)%Q
  /\ (0 <= left)%Q /\ (left <= top)%Q
  /\ exists prev,
       ScrollContainer.ticker s' = Some prev /\
       forall ts,
         let asked :=
           (left + AutoScrollGallery.speed cfg / 1000 * Qmin (ts - prev) 50)%Q in
         let after :=
           ScrollContainer.scrollLeft
             (ScrollContainer.el
                (ScrollContainer.handle cfg s' (ScrollContainer.Frame ts))) in
         ((asked < 0)%Q -> after = 0%Q)
         /\ ((0 <= asked)%Q -> (asked <= top)%Q -> after = asked)
         /\ ((top < asked)%Q -> after = top)
         /\ ((0 <= AutoScrollGallery.speed cfg)%Q -> (prev <= ts)%Q ->
             (left == top)%Q -> (after == top)%Q).
Proof.
  intros Hl Ht Hp Hwide sw cw top s' left.
  pose proof Hl as (Hsw & Hcw & Hlo & Hhi).
  pose proof (wide_range_below_half sw cw Hsw Hwide) as Hbelow.
  change top with (ScrollContainer.maxScroll sw cw) in *.
  assert (Hin : ScrollContainer.in_first_half s).
  { split; [exact Hlo|]. fold sw cw in Hhi. fold sw. lra. }
  destruct (container_frames_keep cfg tss s Hl Hin Ht)
    as (Hl' & Ht' & Ew & Ec & Ep).
  fold s' in Hl', Ht', Ew, Ec, Ep.
  destruct Hl' as (_ & _ & Hlo' & Hhi'). rewrite Ew, Ec in Hhi'.
  fold sw cw left in Hhi'. fold left in Hlo'.
  split; [exact Hbelow|]. split; [exact Hlo'|]. split; [exact Hhi'|].
  destruct (ScrollContainer.ticker s') as [prev|] eqn:Hprev; [|congruence].
  exists prev. split; [reflexivity|]. intros ts asked after.
  assert (Hsw' : (0 < ScrollContainer.scrollWidth (ScrollContainer.el s'))%Q)
    by (rewrite Ew; exact Hsw).
  assert (Hp' : ScrollContainer.isPaused s' = false) by congruence.
  destruct (container_step_offset cfg ts s' prev Hprev Hp' Hsw') as (Eo & _).
  cbv zeta in Eo. rewrite Ew, Ec in Eo. fold sw cw left in Eo. fold asked in Eo.
  destruct (clamp_range sw cw asked) as [Hk0 Hk1].
  assert (Enot : Qle_bool (sw / 2) (ScrollContainer.clamp sw cw asked) = false).
  { destruct (Qle_bool (sw / 2) (ScrollContainer.clamp sw cw asked)) eqn:E;
      [|reflexivity].
    apply Qle_bool_iff in E. lra. }
  rewrite Enot in Eo.
  assert (Eafter : after = ScrollContainer.clamp sw cw asked) by exact Eo.
  destruct (clamp_cases sw cw asked) as (C1 & C2 & C3).
  split; [intros H; rewrite Eafter; now apply C1|].
  split; [intros H0 H1; rewrite Eafter; now apply C2|].
  split; [intros H; rewrite Eafter; now apply C3|].
  intros Hspeed Hts Hleft. rewrite Eafter.
  assert (Hadv : (0 <= AutoScrollGallery.speed cfg / 1000 * Qmin (ts - prev) 50)%Q).
  { assert (Ev : (AutoScrollGallery.speed cfg / 1000
                  == AutoScrollGallery.speed cfg * (1 # 1000))%Q) by field.
    rewrite Ev.
    assert (Hmin : (0 <= Qmin (ts - prev) 50)%Q).
    { apply Q.min_glb; lra. }
    apply Qmult_le_0_compat; [lra | exact Hmin]. }
  destruct (Qlt_le_dec (ScrollContainer.maxScroll sw cw) asked) as [Hgt|Hle].
  - rewrite C3 by exact Hgt. reflexivity.
  - assert (H0 : (0 <= asked)%Q) by (unfold asked; lra).
    rewrite C2 by assumption. unfold asked in *. lra.
Qed.

(** Two images of 240 px with their gaps, 1016 px of track, in a 1200 px
    container: nothing can be scrolled and three frames leave the offset
    at 0. *)
Lemma container_wide_strip_never_wraps_witness :
  let cfg := AutoScrollGallery.mk_config
    (AutoScrollGallery.VArray
       [AutoScrollGallery.VString "a.jpg"; AutoScrollGallery.VString "b.jpg"])
    60 true true false true in
  let s := ScrollContainer.mount cfg 0 1016 1200 in
  ScrollContainer.laid_out s
  /\ ScrollContainer.isPaused s = false
  /\ (ScrollContainer.scrollWidth (ScrollContainer.el s) / 2
      < ScrollContainer.clientWidth (ScrollContainer.el s))%Q
  /\ (ScrollContainer.scrollLeft
        (ScrollContainer.el
           (ScrollContainer.run cfg s
              (List.map ScrollContainer.Frame [16; 32; 48]%Q)))
      <= 0)%Q.
Proof.
  intros cfg s.
  assert (Hl : ScrollContainer.laid_out s)
    by (repeat split; vm_compute; discriminate).
  assert (Ht : ScrollContainer.ticker s <> None) by discriminate.
  assert (Hp : ScrollContainer.isPaused s = false) by reflexivity.
  assert (Hw : (ScrollContainer.scrollWidth (ScrollContainer.el s) / 2
                < ScrollContainer.clientWidth (ScrollContainer.el s))%Q)
    by reflexivity.
  split; [exact Hl|]. split; [exact Hp|]. split; [exact Hw|].
  exact (proj1 (proj2 (proj2
    (container_wide_strip_never_wraps cfg s [16; 32; 48]%Q Hl Ht Hp Hw)))).
Defined.
